(** * Metrics ingestion service: storage, query and retention engine

    A shallow embedding of [cloud_ingestion/server.py]: the pydantic
    models and their field constraints, the timestamp validator, and
    the four operations of [MetricsDatabase] (store_metrics,
    get_recent_metrics, get_summary_stats, cleanup_old_data) over an
    explicit table state, followed by the properties of the
    specification that concern them.

    Modelling conventions.
    - A Python [str] is the list of its code points ([str]); [len] is
      the length of that list.
    - A Python [int] is a [Z]; a Python [float] / SQLite REAL is a
      rational [Q] (the value of the decimal on the wire); NaN and the
      infinities, which every range constraint rejects, are left out.
    - Time is the server's UTC clock read in whole seconds, which is the
      resolution of SQLite's CURRENT_TIMESTAMP and of its [datetime()]
      function; every operation receives the clock reading it is run at.
    - The AUTOINCREMENT counter is an unbounded [Z].
    - The TEXT columns that hold [json.dumps] of a value hold the value. *)

From Stdlib Require Import ZArith QArith List String Ascii Bool Lia.
From Stdlib Require Import Sorting.Sorted Permutation.
Import ListNotations.
Local Open Scope Z_scope.

(** ** Python strings *)

Definition str := list N.

(** An ASCII literal as a Python string. *)
Definition lit (s : string) : str := map N_of_ascii (list_ascii_of_string s).

Definition len (s : str) : Z := Z.of_nat (List.length s).

(** [s[i:j]] for [0 <= i <= j]. *)
Definition slice (i j : nat) (s : str) : str := firstn (j - i) (skipn i s).

(** [s[i:]]. *)
Definition slice_from (i : nat) (s : str) : str := skipn i s.

Definition chr (a : ascii) : N := N_of_ascii a.

(** [v.replace('Z', '+00:00')]: every occurrence is replaced. *)
Fixpoint replace_Z (v : str) : str :=
  match v with
  | [] => []
  | c :: r => if N.eqb c (chr "Z") then lit "+00:00" ++ replace_Z r
              else c :: replace_Z r
  end.

(** [s.find(c) + 1]: one more than the index of the first occurrence,
    0 when there is none. *)
Fixpoint find_plus1 (c : N) (s : str) : nat :=
  match s with
  | [] => 0%nat
  | d :: r => if N.eqb d c then 1%nat
              else match find_plus1 c r with
                   | O => O
                   | S k => S (S k)
                   end
  end.

(** ** The standard library's [datetime.fromisoformat]

    The function is not part of the repository.  This follows the
    reference implementation of CPython 3.7 to 3.10 ([Lib/datetime.py]),
    which reads [YYYY-MM-DD[*HH[:MM[:SS[.fff[fff]]]][+HH:MM[:SS[.ffffff]]]]],
    with [int()] reading ASCII digits only, as the C implementation
    does; [None] stands for ValueError.  The validators below take the
    parser as a parameter; this model is used where a concrete timestamp
    is evaluated. *)

Module PyDatetime.

Definition is_digit (c : N) : bool := (N.leb 48 c && N.leb c 57)%bool.

Fixpoint digits_acc (acc : Z) (s : str) : option Z :=
  match s with
  | [] => Some acc
  | c :: r => if is_digit c then digits_acc (10 * acc + (Z.of_N c - 48)) r
              else None
  end.

(** [int(s)] on a non-empty run of ASCII digits; [None] is ValueError. *)
Definition int_of (s : str) : option Z :=
  match s with
  | [] => None
  | _ => digits_acc 0 s
  end.

Definition char_at (i : nat) (s : str) : option N := nth_error s i.

Definition is_char (a : ascii) (o : option N) : bool :=
  match o with
  | Some c => N.eqb c (chr a)
  | None => false
  end.

(** [_parse_isoformat_date]; a string of fewer than ten characters is
    not a date either. *)
Definition parse_isoformat_date (dtstr : str) : option (Z * Z * Z) :=
  match int_of (slice 0 4 dtstr) with
  | None => None
  | Some year =>
    if negb (is_char "-" (char_at 4 dtstr)) then None else
    match int_of (slice 5 7 dtstr) with
    | None => None
    | Some month =>
      if negb (is_char "-" (char_at 7 dtstr)) then None else
      match int_of (slice 8 10 dtstr) with
      | None => None
      | Some day => Some (year, month, day)
      end
    end
  end.

(** The loop [for comp in range(0, 3)] of [_parse_hh_mm_ss_ff]: reads up
    to three two-digit components from position [pos]; returns the
    components read so far and the position reached. *)
Fixpoint hh_mm_ss_loop (n : nat) (comp : nat) (tstr : str) (pos : nat)
  (comps : list Z) : option (list Z * nat) :=
  match n with
  | O => Some (comps, pos)
  | S n' =>
    if Nat.ltb (List.length tstr - pos) 2 then None else
    match int_of (slice pos (pos + 2) tstr) with
    | None => None
    | Some v =>
      let comps' := comps ++ [v] in
      let pos' := (pos + 2)%nat in
      match slice pos' (pos' + 1) tstr with
      | [] => Some (comps', pos')
      | next_char :: _ =>
        if Nat.leb 2 comp then Some (comps', pos')
        else if negb (N.eqb next_char (chr ":")) then None
        else hh_mm_ss_loop n' (S comp) tstr (S pos') comps'
      end
    end
  end.

Definition pad3 (l : list Z) : Z * Z * Z :=
  (nth 0 l 0, nth 1 l 0, nth 2 l 0).

(** [_parse_hh_mm_ss_ff]: hour, minute, second, microsecond. *)
Definition parse_hh_mm_ss_ff (tstr : str) : option (Z * Z * Z * Z) :=
  match hh_mm_ss_loop 3 0 tstr 0 [] with
  | None => None
  | Some (comps, pos) =>
    if Nat.ltb pos (List.length tstr) then
      if negb (is_char "." (char_at pos tstr)) then None else
      let pos' := S pos in
      let len_remainder := (List.length tstr - pos')%nat in
      if negb (Nat.eqb len_remainder 3 || Nat.eqb len_remainder 6) then None else
      match int_of (slice_from pos' tstr) with
      | None => None
      | Some us =>
        Some (pad3 comps, if Nat.eqb len_remainder 3 then us * 1000 else us)
      end
    else Some (pad3 comps, 0)
  end.

(** A parsed zone: absent, or its offset in microseconds. *)
Definition tzinfo := option Z.

(** [_parse_isoformat_time]; the zone offset must lie strictly between
    minus and plus 24 hours, as [timezone()] requires. *)
Definition parse_isoformat_time (tstr : str)
  : option (Z * Z * Z * Z * tzinfo) :=
  if Nat.ltb (List.length tstr) 2 then None else
  let tz_pos := match find_plus1 (chr "-") tstr with
                | O => find_plus1 (chr "+") tstr
                | p => p
                end in
  let timestr := match tz_pos with
                 | O => tstr
                 | S k => firstn k tstr
                 end in
  match parse_hh_mm_ss_ff timestr with
  | None => None
  | Some time_comps =>
    match tz_pos with
    | O => Some (time_comps, None)
    | S k =>
      let tzstr := slice_from tz_pos tstr in
      let n := List.length tzstr in
      if negb (Nat.eqb n 5 || Nat.eqb n 8 || Nat.eqb n 15) then None else
      match parse_hh_mm_ss_ff tzstr with
      | None => None
      | Some (h, m, s, us) =>
        let td := ((h * 3600 + m * 60 + s) * 1000000 + us) in
        let tzsign := if is_char "-" (char_at k tstr) then -1 else 1 in
        if Z.ltb td (86400 * 1000000)
        then Some (time_comps, Some (tzsign * td))
        else None
      end
    end
  end.

Definition is_leap (y : Z) : bool :=
  (Z.eqb (y mod 4) 0 && (negb (Z.eqb (y mod 100) 0) || Z.eqb (y mod 400) 0))%bool.

Definition days_in_month (y m : Z) : Z :=
  if Z.eqb m 2 then (if is_leap y then 29 else 28)
  else if (Z.eqb m 4 || Z.eqb m 6 || Z.eqb m 9 || Z.eqb m 11)%bool then 30
  else 31.

Definition between (lo x hi : Z) : bool := (Z.leb lo x && Z.leb x hi)%bool.

(** The range checks of the [datetime] constructor. *)
Definition check_fields (y mo d h mi s us : Z) : bool :=
  (between 1 y 9999 && between 1 mo 12 && between 1 d (days_in_month y mo)
   && between 0 h 23 && between 0 mi 59 && between 0 s 59
   && between 0 us 999999)%bool.

Record datetime := mkDatetime {
  year : Z; month : Z; day : Z;
  hour : Z; minute : Z; second : Z; microsecond : Z;
  tz : tzinfo
}.

(** [datetime.fromisoformat(date_string)]; [None] is ValueError. *)
Definition fromisoformat (date_string : str) : option datetime :=
  let dstr := slice 0 10 date_string in
  let tstr := slice_from 11 date_string in
  match parse_isoformat_date dstr with
  | None => None
  | Some (y, mo, d) =>
    match tstr with
    | [] => if check_fields y mo d 0 0 0 0
            then Some (mkDatetime y mo d 0 0 0 0 None) else None
    | _ =>
      match parse_isoformat_time tstr with
      | None => None
      | Some (h, mi, s, us, z) =>
        if check_fields y mo d h mi s us
        then Some (mkDatetime y mo d h mi s us z) else None
      end
    end
  end.

Definition parses (s : str) : bool :=
  match fromisoformat s with Some _ => true | None => false end.

End PyDatetime.

(** ** Validation results

    pydantic validates every field of a model, collects the errors of all
    of them, each under the path ([loc]) of its field, and raises one
    ValidationError when there is any. *)

Inductive LocItem :=
| Key (name : string)
| Index (i : nat).

Definition Loc := list LocItem.

Inductive ErrKind :=
| value_error_missing
| number_not_gt (limit_value : Q)
| number_not_ge (limit_value : Q)
| number_not_le (limit_value : Q)
| any_str_min_length (limit_value : Z)
| any_str_max_length (limit_value : Z)
| value_error (msg : string).

Record ErrorItem := mkError { loc : Loc; kind : ErrKind }.

Definition Errors := list ErrorItem.

Inductive Validated (A : Type) :=
| Accepted (a : A)
| Rejected (errors : Errors).
Arguments Accepted {A} a.
Arguments Rejected {A} errors.

Definition under (k : LocItem) (es : Errors) : Errors :=
  map (fun e => mkError (k :: loc e) (kind e)) es.

Definition at_loc {A} (k : LocItem) (r : Validated A) : Validated A :=
  match r with
  | Accepted a => Accepted a
  | Rejected es => Rejected (under k es)
  end.

Definition fail {A} (k : ErrKind) : Validated A := Rejected [mkError [] k].

(** One more field of a model: the errors of the fields before it and
    its own are both kept, in declaration order. *)
Definition ap {A B} (f : Validated (A -> B)) (x : Validated A) : Validated B :=
  match f, x with
  | Accepted g, Accepted a => Accepted (g a)
  | Accepted _, Rejected es => Rejected es
  | Rejected es, Accepted _ => Rejected es
  | Rejected es1, Rejected es2 => Rejected (es1 ++ es2)
  end.

Declare Scope validate_scope.
Delimit Scope validate_scope with validate.
Notation "f <*> x" := (ap f x) (at level 61, left associativity) : validate_scope.

(** [name: T = Field(...)]: a required field. *)
Definition required {A B} (name : string) (v : option A)
  (check : A -> Validated B) : Validated B :=
  match v with
  | None => at_loc (Key name) (fail value_error_missing)
  | Some a => at_loc (Key name) (check a)
  end.

(** [name: T = Field(default=d, ...)]: the default is taken unchecked. *)
Definition with_default {A} (name : string) (d : A) (v : option A)
  (check : A -> Validated A) : Validated A :=
  match v with
  | None => Accepted d
  | Some a => at_loc (Key name) (check a)
  end.

(** [name: Optional[T] = None]. *)
Definition optional {A B} (name : string) (v : option A)
  (check : A -> Validated B) : Validated (option B) :=
  match v with
  | None => Accepted None
  | Some a => at_loc (Key name) (ap (Accepted Some) (check a))
  end.

(** [List[T]]: every item is validated, under its index. *)
Fixpoint each_from {A B} (i : nat) (check : A -> Validated B) (l : list A)
  : Validated (list B) :=
  match l with
  | [] => Accepted []
  | a :: r => ap (ap (Accepted cons) (at_loc (Index i) (check a)))
                 (each_from (S i) check r)
  end.

Definition each {A B} (check : A -> Validated B) (l : list A)
  : Validated (list B) := each_from 0 check l.

Definition any {A} (a : A) : Validated A := Accepted a.

(** The numeric constraints [gt], [ge], [le] of [Field]. *)
Definition int_gt (limit : Z) (v : Z) : Validated Z :=
  if Z.ltb limit v then Accepted v else fail (number_not_gt (inject_Z limit)).

Definition int_ge (limit : Z) (v : Z) : Validated Z :=
  if Z.leb limit v then Accepted v else fail (number_not_ge (inject_Z limit)).

Definition float_ge (limit : Q) (v : Q) : Validated Q :=
  if Qle_bool limit v then Accepted v else fail (number_not_ge limit).

Definition float_ge_le (lo hi : Q) (v : Q) : Validated Q :=
  if negb (Qle_bool lo v) then fail (number_not_ge lo)
  else if negb (Qle_bool v hi) then fail (number_not_le hi)
  else Accepted v.

(** The string constraints [min_length], [max_length] of [Field]. *)
Definition str_length (min_length max_length : Z) (v : str) : Validated str :=
  if Z.ltb (len v) min_length then fail (any_str_min_length min_length)
  else if Z.ltb max_length (len v) then fail (any_str_max_length max_length)
  else Accepted v.

Definition percent_range : Q -> Validated Q := float_ge_le 0 100.

(** ** The pydantic models

    For each model, [raw] is the candidate as parsed from the wire, each
    field of the type the model declares and [None] when absent (a field
    of another type, or an explicit null, is not modelled); [t] is the
    typed model and [validate] the checks of its [Field] declarations,
    in declaration order. *)

Local Open Scope validate_scope.

Module CPUMetrics.
Record raw := mkRaw {
  r_percent : option Q; r_count : option Z; r_count_logical : option Z;
  r_load_avg : option (list Q) }.
Record t := mk {
  percent : Q; count : Z; count_logical : Z; load_avg : option (list Q) }.
Definition validate (r : raw) : Validated t :=
  Accepted mk
  <*> required "percent" (r_percent r) percent_range
  <*> required "count" (r_count r) (int_gt 0)
  <*> required "count_logical" (r_count_logical r) (int_gt 0)
  <*> optional "load_avg" (r_load_avg r) any.
End CPUMetrics.

Module MemoryMetrics.
Record raw := mkRaw {
  r_total : option Z; r_available : option Z; r_percent : option Q;
  r_used : option Z; r_free : option Z; r_buffers : option Z;
  r_cached : option Z }.
Record t := mk {
  total : Z; available : Z; percent : Q; used : Z; free : Z;
  buffers : Z; cached : Z }.
Definition validate (r : raw) : Validated t :=
  Accepted mk
  <*> required "total" (r_total r) (int_gt 0)
  <*> required "available" (r_available r) (int_ge 0)
  <*> required "percent" (r_percent r) percent_range
  <*> required "used" (r_used r) (int_ge 0)
  <*> required "free" (r_free r) (int_ge 0)
  <*> with_default "buffers" 0 (r_buffers r) (int_ge 0)
  <*> with_default "cached" 0 (r_cached r) (int_ge 0).
End MemoryMetrics.

Module SwapMetrics.
Record raw := mkRaw {
  r_total : option Z; r_used : option Z; r_free : option Z;
  r_percent : option Q }.
Record t := mk { total : Z; used : Z; free : Z; percent : Q }.
Definition validate (r : raw) : Validated t :=
  Accepted mk
  <*> required "total" (r_total r) (int_ge 0)
  <*> required "used" (r_used r) (int_ge 0)
  <*> required "free" (r_free r) (int_ge 0)
  <*> required "percent" (r_percent r) percent_range.
End SwapMetrics.

Module DiskMetrics.
Record raw := mkRaw {
  r_device : option str; r_mountpoint : option str; r_fstype : option str;
  r_total : option Z; r_used : option Z; r_free : option Z;
  r_percent : option Q }.
Record t := mk {
  device : str; mountpoint : str; fstype : str;
  total : Z; used : Z; free : Z; percent : Q }.
Definition validate (r : raw) : Validated t :=
  Accepted mk
  <*> required "device" (r_device r) any
  <*> required "mountpoint" (r_mountpoint r) any
  <*> required "fstype" (r_fstype r) any
  <*> required "total" (r_total r) (int_gt 0)
  <*> required "used" (r_used r) (int_ge 0)
  <*> required "free" (r_free r) (int_ge 0)
  <*> required "percent" (r_percent r) percent_range.
End DiskMetrics.

Module NetworkMetrics.
Record raw := mkRaw {
  r_bytes_sent : option Z; r_bytes_recv : option Z;
  r_packets_sent : option Z; r_packets_recv : option Z;
  r_errin : option Z; r_errout : option Z;
  r_dropin : option Z; r_dropout : option Z }.
Record t := mk {
  bytes_sent : Z; bytes_recv : Z; packets_sent : Z; packets_recv : Z;
  errin : Z; errout : Z; dropin : Z; dropout : Z }.
Definition validate (r : raw) : Validated t :=
  Accepted mk
  <*> required "bytes_sent" (r_bytes_sent r) (int_ge 0)
  <*> required "bytes_recv" (r_bytes_recv r) (int_ge 0)
  <*> required "packets_sent" (r_packets_sent r) (int_ge 0)
  <*> required "packets_recv" (r_packets_recv r) (int_ge 0)
  <*> with_default "errin" 0 (r_errin r) (int_ge 0)
  <*> with_default "errout" 0 (r_errout r) (int_ge 0)
  <*> with_default "dropin" 0 (r_dropin r) (int_ge 0)
  <*> with_default "dropout" 0 (r_dropout r) (int_ge 0).
End NetworkMetrics.

Module ProcessMetrics.
Record raw := mkRaw {
  r_pid : option Z; r_name : option str;
  r_cpu_percent : option Q; r_memory_percent : option Q }.
Record t := mk {
  pid : Z; name : str; cpu_percent : Q; memory_percent : Q }.
Definition validate (r : raw) : Validated t :=
  Accepted mk
  <*> required "pid" (r_pid r) any
  <*> required "name" (r_name r) any
  <*> required "cpu_percent" (r_cpu_percent r) (float_ge 0)
  <*> required "memory_percent" (r_memory_percent r) percent_range.
End ProcessMetrics.

(** The library function the timestamp validator calls. *)
Definition iso_parser := str -> option PyDatetime.datetime.

Module SystemMetrics.
Record raw := mkRaw {
  r_timestamp : option str;
  r_hostname : option str;
  r_cpu : option CPUMetrics.raw;
  r_memory : option MemoryMetrics.raw;
  r_swap : option SwapMetrics.raw;
  r_disk : option (list DiskMetrics.raw);
  r_network : option NetworkMetrics.raw;
  r_top_processes : option (list ProcessMetrics.raw);
  r_error : option str }.
Record t := mk {
  timestamp : str;
  hostname : str;
  cpu : CPUMetrics.t;
  memory : MemoryMetrics.t;
  swap : SwapMetrics.t;
  disk : list DiskMetrics.t;
  network : option NetworkMetrics.t;
  top_processes : option (list ProcessMetrics.t);
  error : option str }.

(** [@validator('timestamp')]: the string is returned as given when
    [datetime.fromisoformat(v.replace('Z', '+00:00'))] does not raise. *)
Definition validate_timestamp (fromisoformat : iso_parser) (v : str)
  : Validated str :=
  match fromisoformat (replace_Z v) with
  | Some _ => Accepted v
  | None => fail (value_error "Invalid timestamp format")
  end.

Definition validate (fromisoformat : iso_parser) (r : raw) : Validated t :=
  Accepted mk
  <*> required "timestamp" (r_timestamp r) (validate_timestamp fromisoformat)
  <*> required "hostname" (r_hostname r) any
  <*> required "cpu" (r_cpu r) CPUMetrics.validate
  <*> required "memory" (r_memory r) MemoryMetrics.validate
  <*> required "swap" (r_swap r) SwapMetrics.validate
  <*> required "disk" (r_disk r) (each DiskMetrics.validate)
  <*> optional "network" (r_network r) NetworkMetrics.validate
  <*> optional "top_processes" (r_top_processes r)
        (each ProcessMetrics.validate)
  <*> optional "error" (r_error r) any.
End SystemMetrics.

Module MetricsPayload.
Record raw := mkRaw {
  r_hostname : option str;
  r_metrics : option SystemMetrics.raw }.
Record t := mk { hostname : str; metrics : SystemMetrics.t }.
Definition validate (fromisoformat : iso_parser) (r : raw) : Validated t :=
  Accepted mk
  <*> required "hostname" (r_hostname r) (str_length 1 255)
  <*> required "metrics" (r_metrics r) (SystemMetrics.validate fromisoformat).
End MetricsPayload.

Local Close Scope validate_scope.

(** ** The embedded store

    The [metrics] table in rowid (insertion) order and the AUTOINCREMENT
    counter, which holds the largest id ever assigned.  The [alerts]
    table is created by [_init_database] and touched by no operation. *)

Record MetricsRow := mkRow {
  id : Z;
  timestamp : str;
  hostname : str;
  cpu_percent : Q;
  memory_percent : Q;
  memory_total : Z;
  memory_used : Z;
  swap_percent : Q;
  disk_data : list DiskMetrics.t;
  network_data : option NetworkMetrics.t;
  raw_data : MetricsPayload.t;
  created_at : Z
}.

Record Database := mkDatabase {
  metrics : list MetricsRow;
  sqlite_sequence : Z
}.

(** [_init_database] on a new file. *)
Definition init_database : Database := mkDatabase [] 0.

(** *** Exceptions

    Each operation of [MetricsDatabase] runs inside [try: ... except
    Exception]; a statement of its body either completes or raises.
    Which statements raise for a reason outside the program (the file
    system, the lock on the file, the platform clock) is given to a call
    as [Faults]; what raises because of the arguments (a cutoff outside
    the range of [datetime], a value SQLite cannot bind) is decided by
    the arguments. *)

Inductive Statement :=
| Connect     (* sqlite3.connect *)
| Cutoff      (* datetime.utcnow(): reading the platform clock *)
| Execute     (* conn.execute *)
| Fetch       (* cursor.fetchall / fetchone *)
| Commit.     (* conn.commit *)

Definition Faults := Statement -> bool.

Definition no_faults : Faults := fun _ => false.

Inductive Exn := sqlite3_Error | OverflowError | UnicodeEncodeError.

Inductive Result (A : Type) :=
| Ok (a : A)
| Raise (e : Exn).
Arguments Ok {A} a.
Arguments Raise {A} e.

(** A connection: the content of the file, and the content as the
    connection's open transaction sees it. *)
Record Connection := mkConn { file : Database; work : Database }.

(** Code run on an open connection; the connection outlives an exception. *)
Definition Sql (A : Type) := Connection -> Result A * Connection.

Definition ret {A} (a : A) : Sql A := fun c => (Ok a, c).

Definition bind {A B} (m : Sql A) (k : A -> Sql B) : Sql B :=
  fun c => match m c with
           | (Ok a, c') => k a c'
           | (Raise e, c') => (Raise e, c')
           end.

Declare Scope sql_scope.
Delimit Scope sql_scope with sql.
Notation "x <- m ;; k" := (bind m (fun x => k))
  (at level 100, m at next level, right associativity) : sql_scope.
Notation "m ;;; k" := (bind m (fun _ => k))
  (at level 100, right associativity) : sql_scope.

(** A statement that raises when the call's faults say so. *)
Definition guarded {A} (f : Faults) (s : Statement) (e : Exn) (m : Sql A)
  : Sql A :=
  fun c => if f s then (Raise e, c) else m c.

Definition commit (f : Faults) : Sql unit :=
  guarded f Commit sqlite3_Error
    (fun c => (Ok tt, mkConn (work c) (work c))).

Definition rollback (c : Connection) : Connection := mkConn (file c) (file c).

(** [with self._get_connection() as conn: body]: on an exception the
    transaction is rolled back and the exception raised again; in both
    cases the connection is closed, which drops what was not committed. *)
Definition with_connection {A} (f : Faults) (db : Database) (body : Sql A)
  : Result A * Database :=
  if f Connect then (Raise sqlite3_Error, db)
  else match body (mkConn db db) with
       | (Ok a, c) => (Ok a, file c)
       | (Raise e, c) => (Raise e, file (rollback c))
       end.

(** *** SQL statements of the operations *)

(** [INSERT INTO metrics (...) VALUES (...)], once its parameters are
    bound ([bind_parameters] below): the id is one more than the
    counter, [created_at] is CURRENT_TIMESTAMP. *)
Definition insert_row (now : Z) (payload : MetricsPayload.t) (db : Database)
  : Database :=
  let m := MetricsPayload.metrics payload in
  let new_id := sqlite_sequence db + 1 in
  mkDatabase
    (metrics db ++
     [mkRow new_id
        (SystemMetrics.timestamp m)
        (MetricsPayload.hostname payload)
        (CPUMetrics.percent (SystemMetrics.cpu m))
        (MemoryMetrics.percent (SystemMetrics.memory m))
        (MemoryMetrics.total (SystemMetrics.memory m))
        (MemoryMetrics.used (SystemMetrics.memory m))
        (SwapMetrics.percent (SystemMetrics.swap m))
        (SystemMetrics.disk m)
        (SystemMetrics.network m)
        payload
        now])
    new_id.

(** Binding the parameters of the INSERT.  An INTEGER column takes a
    signed 64-bit value: a larger Python int raises OverflowError.  A
    TEXT parameter is encoded as UTF-8: a string with a surrogate code
    point raises UnicodeEncodeError.  Both are bound before the
    statement runs. *)
Definition fits_int64 (z : Z) : bool :=
  (Z.leb (- 2 ^ 63) z && Z.ltb z (2 ^ 63))%bool.

Definition is_surrogate (c : N) : bool := (N.leb 55296 c && N.leb c 57343)%bool.

Definition encodable (s : str) : bool := forallb (fun c => negb (is_surrogate c)) s.

Definition bind_parameters (payload : MetricsPayload.t) : Result unit :=
  let m := MetricsPayload.metrics payload in
  if negb (encodable (SystemMetrics.timestamp m)) then Raise UnicodeEncodeError
  else if negb (encodable (MetricsPayload.hostname payload))
  then Raise UnicodeEncodeError
  else if negb (fits_int64 (MemoryMetrics.total (SystemMetrics.memory m)))
  then Raise OverflowError
  else if negb (fits_int64 (MemoryMetrics.used (SystemMetrics.memory m)))
  then Raise OverflowError
  else Ok tt.

Definition execute_insert (f : Faults) (now : Z) (payload : MetricsPayload.t)
  : Sql unit :=
  guarded f Execute sqlite3_Error
    (fun c => match bind_parameters payload with
              | Raise e => (Raise e, c)
              | Ok _ =>
                (Ok tt, mkConn (file c) (insert_row now payload (work c)))
              end).

Definition str_eqb (a b : str) : bool :=
  if list_eq_dec N.eq_dec a b then true else false.

(** [datetime(created_at) > datetime(?)]. *)
Definition newer_than (since : Z) (r : MetricsRow) : bool :=
  Z.ltb since (created_at r).

(** [datetime(created_at) < datetime(?)]. *)
Definition older_than (cutoff : Z) (r : MetricsRow) : bool :=
  Z.ltb (created_at r) cutoff.

(** [hostname = ?]. *)
Definition hostname_is (h : str) (r : MetricsRow) : bool :=
  str_eqb (hostname r) h.

(** Python's truth value of [hostname: Optional[str]]: neither None
    nor the empty string. *)
Definition truthy (hostname_filter : option str) : option str :=
  match hostname_filter with
  | Some (c :: h) => Some (c :: h)
  | _ => None
  end.

(** [ORDER BY created_at DESC]; rows of equal [created_at] keep the
    table's order, the older id first (SQL leaves their order open). *)
Fixpoint insert_desc (r : MetricsRow) (l : list MetricsRow) : list MetricsRow :=
  match l with
  | [] => [r]
  | x :: l' => if Z.leb (created_at x) (created_at r) then r :: l
               else x :: insert_desc r l'
  end.

Definition order_by_created_at_desc (l : list MetricsRow) : list MetricsRow :=
  fold_right insert_desc [] l.

Definition LIMIT : nat := 1000.

(** [SELECT * FROM metrics WHERE ... ORDER BY created_at DESC LIMIT 1000]. *)
Definition select_order_limit (where_ : MetricsRow -> bool) (db : Database)
  : list MetricsRow :=
  firstn LIMIT (order_by_created_at_desc (filter where_ (metrics db))).

(** The aggregate functions; NULL ([None]) over no rows. *)
Definition Qsum (l : list Q) : Q := fold_right Qplus 0%Q l.

Definition AVG (l : list Q) : option Q :=
  match l with
  | [] => None
  | _ => Some (Qsum l / inject_Z (Z.of_nat (List.length l)))%Q
  end.

Definition Qmax (a b : Q) : Q := if Qle_bool a b then b else a.

Definition MAX (l : list Q) : option Q :=
  match l with
  | [] => None
  | x :: r => Some (fold_left Qmax r x)
  end.

Record Summary := mkSummary {
  total_records : Z;
  avg_cpu : option Q; max_cpu : option Q;
  avg_memory : option Q; max_memory : option Q;
  avg_swap : option Q; max_swap : option Q
}.

(** [SELECT COUNT, AVG, MAX ... FROM metrics WHERE ...]: an
    aggregate query without GROUP BY yields one row always. *)
Definition select_aggregates (where_ : MetricsRow -> bool) (db : Database)
  : Summary :=
  let rows := filter where_ (metrics db) in
  mkSummary (Z.of_nat (List.length rows))
    (AVG (map cpu_percent rows)) (MAX (map cpu_percent rows))
    (AVG (map memory_percent rows)) (MAX (map memory_percent rows))
    (AVG (map swap_percent rows)) (MAX (map swap_percent rows)).

(** [DELETE FROM metrics WHERE datetime(created_at) < datetime(?)]:
    the table without the rows deleted, and [cursor.rowcount]. *)
Definition delete_older (cutoff : Z) (db : Database) : Database * Z :=
  (mkDatabase (filter (fun r => negb (older_than cutoff r)) (metrics db))
              (sqlite_sequence db),
   Z.of_nat (List.length (filter (older_than cutoff) (metrics db)))).

(** The range of [datetime], in seconds from the epoch:
    0001-01-01T00:00:00 to 9999-12-31T23:59:59. *)
Definition datetime_min : Z := -62135596800.
Definition datetime_max : Z := 253402300799.

Definition representable (t : Z) : bool :=
  (Z.leb datetime_min t && Z.leb t datetime_max)%bool.

(** [a_datetime - a_timedelta]: OverflowError when the [timedelta] or
    the result is out of range, which for a clock reading inside the
    range is when the result is. *)
Definition minus_timedelta (now seconds : Z) : Sql Z :=
  fun c => if representable (now - seconds) then (Ok (now - seconds), c)
           else (Raise OverflowError, c).

(** [datetime.utcnow() - timedelta(hours=hours)], in seconds. *)
Definition hours_ago (f : Faults) (now hours : Z) : Sql Z :=
  guarded f Cutoff OverflowError (minus_timedelta now (3600 * hours)).

(** [datetime.utcnow() - timedelta(days=days)], in seconds. *)
Definition days_ago (f : Faults) (now days : Z) : Sql Z :=
  guarded f Cutoff OverflowError (minus_timedelta now (86400 * days)).

(** [conn.execute(query, parameters)] followed by [cursor.fetchall()]
    or [cursor.fetchone()] of a SELECT ([fetchone] gives an optional
    row).  The text parameters are bound as those of the INSERT are;
    the cutoff's [isoformat()] is ASCII and always binds. *)
Definition execute_select {A} (f : Faults) (text_parameters : list str)
  (query : Database -> A) : Sql A :=
  guarded f Execute sqlite3_Error
    (fun c => if forallb encodable text_parameters
              then guarded f Fetch sqlite3_Error
                     (fun c => (Ok (query (work c)), c)) c
              else (Raise UnicodeEncodeError, c)).

Definition execute_delete (f : Faults) (cutoff : Z) : Sql Z :=
  guarded f Execute sqlite3_Error
    (fun c => let (db', rowcount) := delete_older cutoff (work c) in
              (Ok rowcount, mkConn (file c) db')).

(** ** The operations of [MetricsDatabase]

    Each takes the faults the call meets, the clock reading it runs at
    and the database, and returns what the method returns together with
    the database the call leaves behind.  The writers hold [self.lock]
    for the whole call: calls are taken one at a time. *)

Local Open Scope sql_scope.

Definition store_metrics (f : Faults) (now : Z) (db : Database)
  (payload : MetricsPayload.t) : bool * Database :=
  match with_connection f db
          (execute_insert f now payload ;;;
           commit f ;;;
           ret true) with
  | (Ok b, db') => (b, db')
  | (Raise _, db') => (false, db')
  end.

Definition get_recent_metrics (f : Faults) (now : Z) (db : Database)
  (hostname_filter : option str) (hours : Z) : list MetricsRow * Database :=
  match with_connection f db
          (since_time <- hours_ago f now hours ;;
           match truthy hostname_filter with
           | Some h =>
             execute_select f [h] (select_order_limit
               (fun r => hostname_is h r && newer_than since_time r)%bool)
           | None =>
             execute_select f [] (select_order_limit (newer_than since_time))
           end) with
  | (Ok rows, db') => (rows, db')
  | (Raise _, db') => ([], db')
  end.

(** The dict [get_summary_stats] returns: empty, or the aggregate row. *)
Inductive StatsDict :=
| EmptyDict
| StatsRow (s : Summary).

Definition get_summary_stats (f : Faults) (now : Z) (db : Database)
  (hostname_filter : option str) (hours : Z) : StatsDict * Database :=
  match with_connection f db
          (since_time <- hours_ago f now hours ;;
           result <-
             match truthy hostname_filter with
             | Some h =>
               execute_select f [h] (fun db => Some (select_aggregates
                 (fun r => newer_than since_time r && hostname_is h r)%bool db))
             | None =>
               execute_select f [] (fun db => Some (select_aggregates
                 (newer_than since_time) db))
             end ;;
           ret (match result with
                | Some row => StatsRow row
                | None => EmptyDict
                end)) with
  | (Ok d, db') => (d, db')
  | (Raise _, db') => (EmptyDict, db')
  end.

Definition cleanup_old_data (f : Faults) (now : Z) (db : Database)
  (days_to_keep : Z) : Z * Database :=
  match with_connection f db
          (cutoff_date <- days_ago f now days_to_keep ;;
           deleted_count <- execute_delete f cutoff_date ;;
           commit f ;;;
           ret deleted_count) with
  | (Ok n, db') => (n, db')
  | (Raise _, db') => (0, db')
  end.

Local Close Scope sql_scope.

(** ** The ingestion endpoint

    The framework validates the request body against [MetricsPayload]
    before [ingest_metrics] is called, and answers 422 itself when
    validation fails, with each error's path under a leading [body].
    The handler is modelled for a [MetricsDatabase] backend. *)

Inductive Response :=
| Success (hostname timestamp : str)
| RequestValidationError (errors : Errors)
| HTTPException (status_code : Z) (detail : string).

(** What the module-level name [InfluxDBAdapter] holds: the imported
    class, or None after the ImportError, in which case
    [isinstance(db, InfluxDBAdapter)] raises TypeError with the
    interpreter's message. *)
Inductive AdapterName :=
| AdapterClass
| AdapterNone (type_error : string).

Definition ingest_metrics (adapter : AdapterName) (f : Faults) (now : Z)
  (db : Database) (payload : MetricsPayload.t) : Response * Database :=
  match adapter with
  | AdapterNone type_error => (HTTPException 400 type_error, db)
  | AdapterClass =>
    let (success, db') := store_metrics f now db payload in
    if success
    then (Success (MetricsPayload.hostname payload)
                  (SystemMetrics.timestamp (MetricsPayload.metrics payload)),
          db')
    else (HTTPException 500 "Failed to store metrics", db')
  end.

Definition post_ingest (fromisoformat : iso_parser) (adapter : AdapterName)
  (f : Faults) (now : Z) (db : Database) (body : MetricsPayload.raw)
  : Response * Database :=
  match MetricsPayload.validate fromisoformat body with
  | Rejected errors => (RequestValidationError (under (Key "body") errors), db)
  | Accepted payload => ingest_metrics adapter f now db payload
  end.

(** ** Runs of the store

    A run starts from the initialised database and makes calls one at a
    time (writers hold [self.lock]), each at the reading of the wall
    clock at that moment, which may lie before an earlier reading. *)

Inductive Call :=
| Store (payload : MetricsPayload.t)
| QueryRecent (hostname_filter : option str) (hours : Z)
| Summarize (hostname_filter : option str) (hours : Z)
| Expire (days_to_keep : Z).

Definition call (f : Faults) (now : Z) (c : Call) (db : Database) : Database :=
  match c with
  | Store payload => snd (store_metrics f now db payload)
  | QueryRecent h hours => snd (get_recent_metrics f now db h hours)
  | Summarize h hours => snd (get_summary_stats f now db h hours)
  | Expire days => snd (cleanup_old_data f now db days)
  end.

(** [reachable t db]: [db] is the database of some run none of whose
    clock readings is after [t]. *)
Inductive reachable : Z -> Database -> Prop :=
| reach_init : forall t, reachable t init_database
| reach_call : forall t db f now c,
    reachable t db -> reachable (Z.max t now) (call f now c db).

(** The same for runs whose clock readings never go back: [t] is then
    at or after the last reading. *)
Inductive reachable_in_clock_order : Z -> Database -> Prop :=
| ordered_init : forall t, reachable_in_clock_order t init_database
| ordered_call : forall t db f now c,
    reachable_in_clock_order t db -> t <= now ->
    reachable_in_clock_order now (call f now c db).

(** ** Notions the properties are stated with *)

(** The parameters of the payload's INSERT can be bound: the strings
    hold no surrogate and the two integers fit 64 bits. *)
Definition bindable (p : MetricsPayload.t) : bool :=
  let m := MetricsPayload.metrics p in
  (encodable (SystemMetrics.timestamp m)
   && encodable (MetricsPayload.hostname p)
   && fits_int64 (MemoryMetrics.total (SystemMetrics.memory m))
   && fits_int64 (MemoryMetrics.used (SystemMetrics.memory m)))%bool.

(** The hostname a read filters on can be bound: it holds no
    surrogate.  No filter, and the empty hostname, bind nothing. *)
Definition filter_binds (hostname_filter : option str) : bool :=
  match truthy hostname_filter with
  | Some h => encodable h
  | None => true
  end.

(** Some statement among [stmts] raises in this call. *)
Definition meets (f : Faults) (stmts : list Statement) : bool := existsb f stmts.

(** The cutoffs of the read paths and of the retention sweep. *)
Definition since (now hours : Z) : Z := now - 3600 * hours.
Definition cutoff (now days : Z) : Z := now - 86400 * days.

(** The records a read with this filter and cutoff is about: those
    created after the cutoff, of that host when a host is named. *)
Definition matches (hostname_filter : option str) (since_time : Z)
  (r : MetricsRow) : bool :=
  match truthy hostname_filter with
  | Some h => (hostname_is h r && newer_than since_time r)%bool
  | None => newer_than since_time r
  end.

Definition matching (hostname_filter : option str) (since_time : Z)
  (db : Database) : list MetricsRow :=
  filter (matches hostname_filter since_time) (metrics db).

(** The order of a read's result: no record before a newer one. *)
Definition newest_first (a b : MetricsRow) : Prop := created_at b <= created_at a.

(** Follows the claim's words, "restricted to exact hostname match when
    a hostname is given". *)
Definition exact_hostname_match (hostname_filter : option str) (r : MetricsRow)
  : Prop :=
  match hostname_filter with
  | Some h => hostname r = h
  | None => True
  end.

(** [total_records] of a summary; an empty dict has none. *)
Definition count_of (d : StatsDict) : option Z :=
  match d with
  | EmptyDict => None
  | StatsRow s => Some (total_records s)
  end.

(** The records a retention sweep with this cutoff keeps. *)
Definition kept (cutoff_date : Z) (r : MetricsRow) : bool :=
  Z.leb cutoff_date (created_at r).



(** The invariant of the stored records: ids are unique, they increase
    strictly in insertion (table) order, and a record with a larger id
    has no earlier [created_at]. *)
Definition created_at_follows_id (db : Database) : Prop :=
  forall r1 r2, In r1 (metrics db) -> In r2 (metrics db) ->
                id r1 < id r2 -> created_at r1 <= created_at r2.

Definition stored_record_invariant (db : Database) : Prop :=
  NoDup (map id (metrics db))
  /\ StronglySorted Z.lt (map id (metrics db))
  /\ created_at_follows_id db.

(** What holds between a record and every record inserted after it. *)
Definition inserted_before (a b : MetricsRow) : Prop :=
  id a < id b /\ created_at a <= created_at b.

(** The ids of the table increase strictly in table order, none is
    above the AUTOINCREMENT counter, and no [created_at] is after [t]:
    what every call preserves, whatever the clock does. *)
Definition id_before (a b : MetricsRow) : Prop := id a < id b.

Definition ids_ordered (t : Z) (db : Database) : Prop :=
  StronglySorted id_before (metrics db)
  /\ Forall (fun r => id r <= sqlite_sequence db /\ created_at r <= t)
            (metrics db).

(** The ids half of the invariant of the stored records. *)
Definition ids_invariant (db : Database) : Prop :=
  NoDup (map id (metrics db)) /\ StronglySorted Z.lt (map id (metrics db)).

(** The invariant in the form each call preserves: besides the order of
    the table, no id is above the AUTOINCREMENT counter and no
    [created_at] is after the last clock reading [t]. *)
Definition well_ordered (t : Z) (db : Database) : Prop :=
  StronglySorted inserted_before (metrics db)
  /\ Forall (fun r => id r <= sqlite_sequence db /\ created_at r <= t)
            (metrics db).

(** ** The constraints of the data model

    What the specification's data model asks of a candidate, field by
    field, as propositions over the candidate; each constraint is listed
    under the path of its field. *)

(** The paths a validation result names. *)
Definition errors_of {A} (v : Validated A) : Errors :=
  match v with
  | Accepted _ => []
  | Rejected es => es
  end.

Definition names {A} (v : Validated A) (l : Loc) : Prop :=
  In l (map loc (errors_of v)).

(** The number of bytes of a string on the wire (UTF-8). *)
Definition utf8_len (s : str) : Z :=
  fold_right (fun c n => (if N.ltb c 128 then 1
                          else if N.ltb c 2048 then 2
                          else if N.ltb c 65536 then 3 else 4) + n) 0 s.

(** Follows the specification's words: "hostname: non-empty string,
    at most 255 bytes". *)
Definition spec_hostname_bounds (h : str) : Prop := 1 <= utf8_len h <= 255.

Definition missing {A} (v : option A) : Prop := v = None.

Definition present_and {A} (v : option A) (bad : A -> Prop) : Prop :=
  exists a, v = Some a /\ bad a.

Definition Constraints := list (Loc * Prop).

Definition violated (cs : Constraints) (l : Loc) : Prop :=
  exists P, In (l, P) cs /\ P.

Definition prefix (k : LocItem) (cs : Constraints) : Constraints :=
  map (fun c => (k :: fst c, snd c)) cs.

Definition outside_percent (x : Q) : Prop := ~ (0 <= x /\ x <= 100)%Q.

(** A required percentage in [0, 100]. *)
Definition req_percent (name : string) (v : option Q) : Loc * Prop :=
  ([Key name], missing v \/ present_and v outside_percent).

(** A required integer above 0. *)
Definition req_positive (name : string) (v : option Z) : Loc * Prop :=
  ([Key name], missing v \/ present_and v (fun x => ~ 0 < x)).

(** A required integer that is not negative. *)
Definition req_nonneg (name : string) (v : option Z) : Loc * Prop :=
  ([Key name], missing v \/ present_and v (fun x => x < 0)).

(** An integer with a default that is not negative when given. *)
Definition opt_nonneg (name : string) (v : option Z) : Loc * Prop :=
  ([Key name], present_and v (fun x => x < 0)).

(** A required field with no constraint of its own. *)
Definition req_any {A} (name : string) (v : option A) : Loc * Prop :=
  ([Key name], missing v).

(** A required nested object: it is there, and its own constraints hold. *)
Definition req_nested {A} (name : string) (v : option A)
  (cs : A -> Constraints) : Constraints :=
  req_any name v ::
  match v with
  | Some a => prefix (Key name) (cs a)
  | None => []
  end.

(** An optional nested object: its own constraints hold when it is there. *)
Definition opt_nested {A} (name : string) (v : option A)
  (cs : A -> Constraints) : Constraints :=
  match v with
  | Some a => prefix (Key name) (cs a)
  | None => []
  end.

(** The constraints of the items of a sequence, each under its index. *)
Fixpoint items_from {A} (i : nat) (cs : A -> Constraints) (l : list A)
  : Constraints :=
  match l with
  | [] => []
  | a :: r => prefix (Index i) (cs a) ++ items_from (S i) cs r
  end.

Definition cpu_constraints (r : CPUMetrics.raw) : Constraints :=
  [req_percent "percent" (CPUMetrics.r_percent r);
   req_positive "count" (CPUMetrics.r_count r);
   req_positive "count_logical" (CPUMetrics.r_count_logical r)].

Definition memory_constraints (r : MemoryMetrics.raw) : Constraints :=
  [req_positive "total" (MemoryMetrics.r_total r);
   req_nonneg "available" (MemoryMetrics.r_available r);
   req_percent "percent" (MemoryMetrics.r_percent r);
   req_nonneg "used" (MemoryMetrics.r_used r);
   req_nonneg "free" (MemoryMetrics.r_free r);
   opt_nonneg "buffers" (MemoryMetrics.r_buffers r);
   opt_nonneg "cached" (MemoryMetrics.r_cached r)].

Definition swap_constraints (r : SwapMetrics.raw) : Constraints :=
  [req_nonneg "total" (SwapMetrics.r_total r);
   req_nonneg "used" (SwapMetrics.r_used r);
   req_nonneg "free" (SwapMetrics.r_free r);
   req_percent "percent" (SwapMetrics.r_percent r)].

Definition disk_constraints (r : DiskMetrics.raw) : Constraints :=
  [req_any "device" (DiskMetrics.r_device r);
   req_any "mountpoint" (DiskMetrics.r_mountpoint r);
   req_any "fstype" (DiskMetrics.r_fstype r);
   req_positive "total" (DiskMetrics.r_total r);
   req_nonneg "used" (DiskMetrics.r_used r);
   req_nonneg "free" (DiskMetrics.r_free r);
   req_percent "percent" (DiskMetrics.r_percent r)].

Definition network_constraints (r : NetworkMetrics.raw) : Constraints :=
  [req_nonneg "bytes_sent" (NetworkMetrics.r_bytes_sent r);
   req_nonneg "bytes_recv" (NetworkMetrics.r_bytes_recv r);
   req_nonneg "packets_sent" (NetworkMetrics.r_packets_sent r);
   req_nonneg "packets_recv" (NetworkMetrics.r_packets_recv r);
   opt_nonneg "errin" (NetworkMetrics.r_errin r);
   opt_nonneg "errout" (NetworkMetrics.r_errout r);
   opt_nonneg "dropin" (NetworkMetrics.r_dropin r);
   opt_nonneg "dropout" (NetworkMetrics.r_dropout r)].

Definition process_constraints (r : ProcessMetrics.raw) : Constraints :=
  [req_any "pid" (ProcessMetrics.r_pid r);
   req_any "name" (ProcessMetrics.r_name r);
   ([Key "cpu_percent"],
    missing (ProcessMetrics.r_cpu_percent r)
    \/ present_and (ProcessMetrics.r_cpu_percent r) (fun x => ~ (0 <= x)%Q));
   req_percent "memory_percent" (ProcessMetrics.r_memory_percent r)].

(** The timestamp does not parse (with [Z] read as [+00:00]). *)
Definition unparseable (fromisoformat : iso_parser) (v : str) : Prop :=
  fromisoformat (replace_Z v) = None.

Definition snapshot_constraints (fromisoformat : iso_parser)
  (r : SystemMetrics.raw) : Constraints :=
  [([Key "timestamp"],
    missing (SystemMetrics.r_timestamp r)
    \/ present_and (SystemMetrics.r_timestamp r) (unparseable fromisoformat));
   req_any "hostname" (SystemMetrics.r_hostname r)]
  ++ req_nested "cpu" (SystemMetrics.r_cpu r) cpu_constraints
  ++ req_nested "memory" (SystemMetrics.r_memory r) memory_constraints
  ++ req_nested "swap" (SystemMetrics.r_swap r) swap_constraints
  ++ req_nested "disk" (SystemMetrics.r_disk r) (items_from 0 disk_constraints)
  ++ opt_nested "network" (SystemMetrics.r_network r) network_constraints
  ++ opt_nested "top_processes" (SystemMetrics.r_top_processes r)
       (items_from 0 process_constraints).

(** The constraints on a request body, with the hostname's length taken
    by [measure]: between 1 and 255. *)
Definition payload_constraints (measure : str -> Z) (fromisoformat : iso_parser)
  (r : MetricsPayload.raw) : Constraints :=
  ([Key "hostname"],
   missing (MetricsPayload.r_hostname r)
   \/ present_and (MetricsPayload.r_hostname r)
        (fun h => ~ (1 <= measure h <= 255)))
  :: req_nested "metrics" (MetricsPayload.r_metrics r)
       (snapshot_constraints fromisoformat).

Definition is_accepted {A} (v : Validated A) : bool :=
  match v with
  | Accepted _ => true
  | Rejected _ => false
  end.

(** The timestamp parses, with [Z] read as [+00:00]. *)
Definition parseable (fromisoformat : iso_parser) (v : str) : bool :=
  match fromisoformat (replace_Z v) with
  | Some _ => true
  | None => false
  end.


(** ** Sample data

    The snapshot of the specification's scenario: host-a with
    cpu.percent 55.2 and memory.percent 70.0. *)

Module Sample.

Definition cpu : CPUMetrics.raw :=
  CPUMetrics.mkRaw (Some (552 # 10)) (Some 4) (Some 8) None.

Definition memory_with (percent : Q) : MemoryMetrics.raw :=
  MemoryMetrics.mkRaw (Some 16000) (Some 4800) (Some percent) (Some 11200)
    (Some 4800) None None.

Definition memory : MemoryMetrics.raw := memory_with (70 # 1).

Definition swap : SwapMetrics.raw :=
  SwapMetrics.mkRaw (Some 2000) (Some 0) (Some 2000) (Some 0%Q).

Definition root_disk : DiskMetrics.raw :=
  DiskMetrics.mkRaw (Some (lit "/dev/sda1")) (Some (lit "/"))
    (Some (lit "ext4")) (Some 500000) (Some 200000) (Some 300000)
    (Some (40 # 1)).

Definition snapshot (timestamp hostname : str) : SystemMetrics.raw :=
  SystemMetrics.mkRaw (Some timestamp) (Some hostname) (Some cpu) (Some memory)
    (Some swap) (Some [root_disk]) None None None.

Definition body (timestamp hostname : str) : MetricsPayload.raw :=
  MetricsPayload.mkRaw (Some hostname) (Some (snapshot timestamp hostname)).

(** The scenario with memory.percent = 150. *)
Definition memory_150 : MetricsPayload.raw :=
  MetricsPayload.mkRaw (Some (lit "host-a"))
    (Some (SystemMetrics.mkRaw (Some (lit "2024-01-01T12:30:45+00:00"))
             (Some (lit "host-a")) (Some cpu) (Some (memory_with (150 # 1)))
             (Some swap) (Some [root_disk]) None None None)).

(** A hostname of 200 characters of two bytes each (U+00E9). *)
Definition long_hostname : str := repeat 233%N 200.

(** The same payload as a validated model. *)
Definition payload (timestamp hostname : str) : MetricsPayload.t :=
  MetricsPayload.mk hostname
    (SystemMetrics.mk timestamp hostname
       (CPUMetrics.mk (552 # 10) 4 8 None)
       (MemoryMetrics.mk 16000 4800 (70 # 1) 11200 4800 0 0)
       (SwapMetrics.mk 2000 0 2000 0%Q)
       [DiskMetrics.mk (lit "/dev/sda1") (lit "/") (lit "ext4")
          500000 200000 300000 (40 # 1)]
       None None None).

Definition host_a : MetricsPayload.t :=
  payload (lit "2024-01-01T12:30:45+00:00") (lit "host-a").



(** A hostname that is one lone surrogate (U+D800). *)
Definition surrogate_hostname : str := [55296%N].

(** A call in which only [conn.commit()] fails, and one in which only
    fetching fails. *)
Definition commit_fails : Faults :=
  fun s => match s with Commit => true | _ => false end.

Definition fetch_fails : Faults :=
  fun s => match s with Fetch => true | _ => false end.

End Sample.

(** ** Further notions: histories, sweeps in a row, the periodic task *)

(** [later db db']: [db'] comes from [db] by calls made one after
    another, at any clock readings and with any faults. *)
Inductive later : Database -> Database -> Prop :=
| later_now : forall db, later db db
| later_call : forall db db' f now c,
    later db db' -> later db (call f now c db').

(** No id of the table is above the AUTOINCREMENT counter. *)
Definition ids_bounded (db : Database) : Prop :=
  Forall (fun r => id r <= sqlite_sequence db) (metrics db).

(** The result of a read, when the call meets no fault. *)
Definition recent (now : Z) (db : Database) (h : option str) (hours : Z)
  : list MetricsRow :=
  fst (get_recent_metrics no_faults now db h hours).

Definition is_some {A} (o : option A) : bool :=
  match o with
  | Some _ => true
  | None => false
  end.

(** [m] is the largest value [col] takes on [rows], and one of them
    takes it. *)
Definition is_maximum (col : MetricsRow -> Q) (rows : list MetricsRow)
  (m : option Q) : Prop :=
  match m with
  | Some v => (exists r, In r rows /\ col r = v)
              /\ Forall (fun r => (col r <= v)%Q) rows
  | None => rows = []
  end.

(** [periodic_cleanup], the first cycles of its loop: each cycle wakes
    at a clock reading and calls [cleanup_old_data(days_to_keep=30)]
    with the faults that call meets; a failed cycle is logged and the
    loop goes on. *)
Fixpoint periodic_cleanup (cycles : list (Faults * Z)) (db : Database)
  : Database :=
  match cycles with
  | [] => db
  | (f, now) :: rest =>
    periodic_cleanup rest (snd (cleanup_old_data f now db 30))
  end.

(** The latest cutoff among the cycles whose sweep went through. *)
Fixpoint swept_cutoff (cycles : list (Faults * Z)) : option Z :=
  match cycles with
  | [] => None
  | (f, now) :: rest =>
    let here := if (meets f [Connect; Cutoff; Execute; Commit]
                    || negb (representable (cutoff now 30)))%bool
                then None
                else Some (cutoff now 30) in
    match here, swept_cutoff rest with
    | Some a, Some b => Some (Z.max a b)
    | Some a, None => Some a
    | None, o => o
    end
  end.

(** ** Further notions: validation results *)

(** A rejection lists at least one error. *)
Definition says_why {A} (v : Validated A) : Prop :=
  match v with
  | Accepted _ => True
  | Rejected es => es <> []
  end.

(** ** Further notions: a model as a dict, defaults, ranges *)

(** [model.dict()]: every field of the model, nested models as dicts. *)
Definition cpu_dict (c : CPUMetrics.t) : CPUMetrics.raw :=
  CPUMetrics.mkRaw (Some (CPUMetrics.percent c)) (Some (CPUMetrics.count c))
    (Some (CPUMetrics.count_logical c)) (CPUMetrics.load_avg c).

Definition memory_dict (m : MemoryMetrics.t) : MemoryMetrics.raw :=
  MemoryMetrics.mkRaw (Some (MemoryMetrics.total m))
    (Some (MemoryMetrics.available m)) (Some (MemoryMetrics.percent m))
    (Some (MemoryMetrics.used m)) (Some (MemoryMetrics.free m))
    (Some (MemoryMetrics.buffers m)) (Some (MemoryMetrics.cached m)).

Definition swap_dict (w : SwapMetrics.t) : SwapMetrics.raw :=
  SwapMetrics.mkRaw (Some (SwapMetrics.total w)) (Some (SwapMetrics.used w))
    (Some (SwapMetrics.free w)) (Some (SwapMetrics.percent w)).

Definition disk_dict (d : DiskMetrics.t) : DiskMetrics.raw :=
  DiskMetrics.mkRaw (Some (DiskMetrics.device d))
    (Some (DiskMetrics.mountpoint d)) (Some (DiskMetrics.fstype d))
    (Some (DiskMetrics.total d)) (Some (DiskMetrics.used d))
    (Some (DiskMetrics.free d)) (Some (DiskMetrics.percent d)).

Definition network_dict (n : NetworkMetrics.t) : NetworkMetrics.raw :=
  NetworkMetrics.mkRaw (Some (NetworkMetrics.bytes_sent n))
    (Some (NetworkMetrics.bytes_recv n)) (Some (NetworkMetrics.packets_sent n))
    (Some (NetworkMetrics.packets_recv n)) (Some (NetworkMetrics.errin n))
    (Some (NetworkMetrics.errout n)) (Some (NetworkMetrics.dropin n))
    (Some (NetworkMetrics.dropout n)).

Definition process_dict (q : ProcessMetrics.t) : ProcessMetrics.raw :=
  ProcessMetrics.mkRaw (Some (ProcessMetrics.pid q))
    (Some (ProcessMetrics.name q)) (Some (ProcessMetrics.cpu_percent q))
    (Some (ProcessMetrics.memory_percent q)).

Definition snapshot_dict (m : SystemMetrics.t) : SystemMetrics.raw :=
  SystemMetrics.mkRaw (Some (SystemMetrics.timestamp m))
    (Some (SystemMetrics.hostname m))
    (Some (cpu_dict (SystemMetrics.cpu m)))
    (Some (memory_dict (SystemMetrics.memory m)))
    (Some (swap_dict (SystemMetrics.swap m)))
    (Some (map disk_dict (SystemMetrics.disk m)))
    (option_map network_dict (SystemMetrics.network m))
    (option_map (map process_dict) (SystemMetrics.top_processes m))
    (SystemMetrics.error m).

Definition payload_dict (p : MetricsPayload.t) : MetricsPayload.raw :=
  MetricsPayload.mkRaw (Some (MetricsPayload.hostname p))
    (Some (snapshot_dict (MetricsPayload.metrics p))).

(** A candidate with the declared default, 0, in place of each absent
    counter that has one. *)
Definition or_zero (v : option Z) : option Z :=
  match v with
  | Some a => Some a
  | None => Some 0
  end.

Definition memory_defaults (r : MemoryMetrics.raw) : MemoryMetrics.raw :=
  MemoryMetrics.mkRaw (MemoryMetrics.r_total r) (MemoryMetrics.r_available r)
    (MemoryMetrics.r_percent r) (MemoryMetrics.r_used r)
    (MemoryMetrics.r_free r) (or_zero (MemoryMetrics.r_buffers r))
    (or_zero (MemoryMetrics.r_cached r)).

Definition network_defaults (r : NetworkMetrics.raw) : NetworkMetrics.raw :=
  NetworkMetrics.mkRaw (NetworkMetrics.r_bytes_sent r)
    (NetworkMetrics.r_bytes_recv r) (NetworkMetrics.r_packets_sent r)
    (NetworkMetrics.r_packets_recv r) (or_zero (NetworkMetrics.r_errin r))
    (or_zero (NetworkMetrics.r_errout r)) (or_zero (NetworkMetrics.r_dropin r))
    (or_zero (NetworkMetrics.r_dropout r)).

Definition snapshot_defaults (r : SystemMetrics.raw) : SystemMetrics.raw :=
  SystemMetrics.mkRaw (SystemMetrics.r_timestamp r) (SystemMetrics.r_hostname r)
    (SystemMetrics.r_cpu r)
    (option_map memory_defaults (SystemMetrics.r_memory r))
    (SystemMetrics.r_swap r) (SystemMetrics.r_disk r)
    (option_map network_defaults (SystemMetrics.r_network r))
    (SystemMetrics.r_top_processes r) (SystemMetrics.r_error r).

Definition payload_defaults (r : MetricsPayload.raw) : MetricsPayload.raw :=
  MetricsPayload.mkRaw (MetricsPayload.r_hostname r)
    (option_map snapshot_defaults (MetricsPayload.r_metrics r)).

(** The ranges of the models, on a typed payload. *)
Definition is_percent (x : Q) : bool := (Qle_bool 0 x && Qle_bool x 100)%bool.

Definition cpu_in_range (c : CPUMetrics.t) : bool :=
  (is_percent (CPUMetrics.percent c) && Z.ltb 0 (CPUMetrics.count c)
   && Z.ltb 0 (CPUMetrics.count_logical c))%bool.

Definition memory_in_range (m : MemoryMetrics.t) : bool :=
  (Z.ltb 0 (MemoryMetrics.total m) && Z.leb 0 (MemoryMetrics.available m)
   && is_percent (MemoryMetrics.percent m) && Z.leb 0 (MemoryMetrics.used m)
   && Z.leb 0 (MemoryMetrics.free m) && Z.leb 0 (MemoryMetrics.buffers m)
   && Z.leb 0 (MemoryMetrics.cached m))%bool.

Definition swap_in_range (w : SwapMetrics.t) : bool :=
  (Z.leb 0 (SwapMetrics.total w) && Z.leb 0 (SwapMetrics.used w)
   && Z.leb 0 (SwapMetrics.free w) && is_percent (SwapMetrics.percent w))%bool.

Definition disk_in_range (d : DiskMetrics.t) : bool :=
  (Z.ltb 0 (DiskMetrics.total d) && Z.leb 0 (DiskMetrics.used d)
   && Z.leb 0 (DiskMetrics.free d) && is_percent (DiskMetrics.percent d))%bool.

Definition network_in_range (n : NetworkMetrics.t) : bool :=
  (Z.leb 0 (NetworkMetrics.bytes_sent n) && Z.leb 0 (NetworkMetrics.bytes_recv n)
   && Z.leb 0 (NetworkMetrics.packets_sent n)
   && Z.leb 0 (NetworkMetrics.packets_recv n)
   && Z.leb 0 (NetworkMetrics.errin n) && Z.leb 0 (NetworkMetrics.errout n)
   && Z.leb 0 (NetworkMetrics.dropin n) && Z.leb 0 (NetworkMetrics.dropout n))%bool.

Definition process_in_range (q : ProcessMetrics.t) : bool :=
  (Qle_bool 0 (ProcessMetrics.cpu_percent q)
   && is_percent (ProcessMetrics.memory_percent q))%bool.

Definition for_option {A} (f : A -> bool) (o : option A) : bool :=
  match o with
  | Some a => f a
  | None => true
  end.

Definition snapshot_in_range (m : SystemMetrics.t) : bool :=
  (cpu_in_range (SystemMetrics.cpu m)
   && memory_in_range (SystemMetrics.memory m)
   && swap_in_range (SystemMetrics.swap m)
   && forallb disk_in_range (SystemMetrics.disk m)
   && for_option network_in_range (SystemMetrics.network m)
   && for_option (forallb process_in_range) (SystemMetrics.top_processes m))%bool.

Definition payload_in_range (fromisoformat : iso_parser) (p : MetricsPayload.t)
  : bool :=
  (Z.leb 1 (len (MetricsPayload.hostname p))
   && Z.leb (len (MetricsPayload.hostname p)) 255
   && parseable fromisoformat (SystemMetrics.timestamp (MetricsPayload.metrics p))
   && snapshot_in_range (MetricsPayload.metrics p))%bool.

(** ** Configuration and the choice of the backend

    The configuration is a Python dict with string keys whose values are
    what [os.getenv] and [json.load] produce.  A dict is the list of its
    items, in insertion order, the keys distinct. *)

#[warnings="-register-all"]
Inductive PyValue :=
| PyNone
| PyBool (b : bool)
| PyInt (z : Z)
| PyFloat (q : Q)
| PyStr (s : str)
| PyList (l : list PyValue)
| PyDict (items : list (str * PyValue)).

Definition pydict := list (str * PyValue).

(** [d.get(k)]. *)
Fixpoint dict_get (k : str) (d : pydict) : option PyValue :=
  match d with
  | [] => None
  | (k', v) :: r => if str_eqb k' k then Some v else dict_get k r
  end.

(** [d.get(k, default)]. *)
Definition get_or (k : str) (default : PyValue) (d : pydict) : PyValue :=
  match dict_get k d with
  | Some v => v
  | None => default
  end.

(** [d[k] = v]: a key that is there keeps its place. *)
Fixpoint dict_set (k : str) (v : PyValue) (d : pydict) : pydict :=
  match d with
  | [] => [(k, v)]
  | (k', v') :: r => if str_eqb k' k then (k', v) :: r
                     else (k', v') :: dict_set k v r
  end.

(** [d.update(e)] for a dict [e]. *)
Definition dict_update (d e : pydict) : pydict :=
  fold_left (fun acc kv => dict_set (fst kv) (snd kv) acc) e d.

Inductive ConfigError := AttributeError | TypeError | ValueError.

Inductive Outcome (A : Type) :=
| Done (a : A)
| Raised (e : ConfigError).
Arguments Done {A} a.
Arguments Raised {A} e.

(** [os.getenv(name, default)] in an environment. *)
Definition Environ := str -> option str.

Definition getenv (env : Environ) (name default : string) : str :=
  match env (lit name) with
  | Some v => v
  | None => lit default
  end.

(** What is found at [db_config.json]: no file; a file that cannot be
    opened or parsed, or whose JSON value [update] refuses (the warning
    branch); or a JSON object.  A file holding a JSON array is not
    modelled. *)
Inductive ConfigFile :=
| NoFile
| Unusable
| JsonObject (o : pydict).

(** [load_db_config]; [py_int] is Python's [int] on a string, [None]
    when it raises ValueError, which nothing here catches. *)
Definition load_db_config (py_int : str -> option Z) (env : Environ)
  (file : ConfigFile) : Outcome pydict :=
  match py_int (getenv env "INFLUXDB_TIMEOUT" "10000") with
  | None => Raised ValueError
  | Some timeout =>
    let config :=
      [(lit "type", PyStr (getenv env "DB_TYPE" "sqlite"));
       (lit "sqlite",
        PyDict [(lit "path", PyStr (getenv env "SQLITE_PATH" "metrics.db"))]);
       (lit "influxdb",
        PyDict [(lit "url", PyStr (getenv env "INFLUXDB_URL"
                                     "http://localhost:8086"));
                (lit "token", match env (lit "INFLUXDB_TOKEN") with
                              | Some v => PyStr v
                              | None => PyNone
                              end);
                (lit "org", PyStr (getenv env "INFLUXDB_ORG" "metrics-org"));
                (lit "bucket", PyStr (getenv env "INFLUXDB_BUCKET" "metrics"));
                (lit "timeout", PyInt timeout)])] in
    Done (match file with
          | JsonObject file_config => dict_update config file_config
          | _ => config
          end)
  end.

(** The class [create_database] instantiates and the argument it
    passes; the constructors themselves are not part of this. *)
Inductive Backend :=
| InfluxDBAdapter (config : PyValue)
| MetricsDatabase (db_path : str).

(** [DatabaseFactory.create_database]; [lower] is [str.lower].  A value
    that is not a string has no [lower], one that is not a dict no
    [get] (AttributeError), and [Path] takes a string (TypeError). *)
Definition create_database (INFLUXDB_AVAILABLE : bool) (lower : str -> str)
  (config : option pydict) : Outcome Backend :=
  let config := match config with
                | None => []
                | Some c => c
                end in
  match get_or (lit "type") (PyStr (lit "sqlite")) config with
  | PyStr t =>
    let db_type := lower t in
    if (str_eqb db_type (lit "influxdb") && INFLUXDB_AVAILABLE)%bool
    then Done (InfluxDBAdapter (get_or (lit "influxdb") (PyDict []) config))
    else match get_or (lit "sqlite") (PyDict []) config with
         | PyDict section =>
           match get_or (lit "path") (PyStr (lit "metrics.db")) section with
           | PyStr path => Done (MetricsDatabase path)
           | _ => Raised TypeError
           end
         | _ => Raised AttributeError
         end
  | _ => Raised AttributeError
  end.

(** [db = DatabaseFactory.create_database(load_db_config())]. *)
Definition startup (INFLUXDB_AVAILABLE : bool) (lower : str -> str)
  (py_int : str -> option Z) (env : Environ) (file : ConfigFile)
  : Outcome Backend :=
  match load_db_config py_int env file with
  | Done db_config => create_database INFLUXDB_AVAILABLE lower (Some db_config)
  | Raised e => Raised e
  end.

(** The configuration built from the environment alone. *)
Definition from_environment (py_int : str -> option Z) (env : Environ)
  : Outcome pydict := load_db_config py_int env NoFile.

(** Sample configuration: an empty environment, ASCII lower-casing and
    decimal integers. *)
Module SampleConfig.

Definition no_env : Environ := fun _ => None.

Definition path_env : Environ :=
  fun name => if str_eqb name (lit "SQLITE_PATH")
              then Some (lit "/var/lib/metrics.db") else None.

Definition ascii_lower (s : str) : str :=
  map (fun c => if (N.leb 65 c && N.leb c 90)%bool then (c + 32)%N else c) s.

Definition decimal : str -> option Z := PyDatetime.int_of.

Definition override : pydict := [(lit "sqlite", PyDict [])].

End SampleConfig.

(** * Properties *)

(** ** The operations, statement by statement *)

Lemma bind_parameters_bindable p :
  bind_parameters p = Ok tt <-> bindable p = true.
Proof.
  unfold bind_parameters, bindable.
  destruct (encodable _); simpl; [|split; discriminate].
  destruct (encodable _); simpl; [|split; discriminate].
  destruct (fits_int64 _); simpl; [|split; discriminate].
  destruct (fits_int64 _); simpl; split; auto; discriminate.
Qed.

Lemma store_metrics_run f now db p :
  store_metrics f now db p =
  if meets f [Connect; Execute; Commit] then (false, db)
  else if bindable p then (true, insert_row now p db)
  else (false, db).
Proof.
  unfold store_metrics, with_connection, meets, bind, execute_insert, commit,
    guarded, ret; simpl.
  destruct (f Connect); simpl; [reflexivity|].
  destruct (f Execute); simpl.
  { destruct (f Commit); reflexivity. }
  pose proof (bind_parameters_bindable p) as B.
  destruct (bind_parameters p) as [[]|e]; destruct (bindable p);
    try (destruct B as [B1 B2]; specialize (B1 eq_refl); discriminate);
    try (destruct B as [B1 B2]; specialize (B2 eq_refl); discriminate);
    destruct (f Commit); reflexivity.
Qed.

Lemma get_recent_metrics_run f now db h hours :
  get_recent_metrics f now db h hours =
  if meets f [Connect; Cutoff; Execute; Fetch] then ([], db)
  else if (representable (since now hours) && filter_binds h)%bool
       then (select_order_limit (matches h (since now hours)) db, db)
       else ([], db).
Proof.
  unfold get_recent_metrics, with_connection, meets, bind, hours_ago,
    minus_timedelta, execute_select, guarded, ret, matches, filter_binds, since.
  generalize (now - 3600 * hours); intros z; simpl.
  destruct (f Connect); simpl; [reflexivity|].
  destruct (f Cutoff); simpl; [reflexivity|].
  destruct (representable z); simpl.
  - destruct (truthy h) as [h'|]; simpl;
      destruct (f Execute); simpl; try reflexivity;
      try (rewrite andb_true_r; destruct (encodable h'); simpl);
      try reflexivity; destruct (f Fetch); reflexivity.
  - destruct (f Execute); simpl; [reflexivity|].
    destruct (f Fetch); reflexivity.
Qed.

Lemma filter_ext_bool {A} (p q : A -> bool) (l : list A) :
  (forall a, p a = q a) -> filter p l = filter q l.
Proof.
  intros E; induction l as [|a l IH]; simpl; [reflexivity|].
  rewrite E, IH; reflexivity.
Qed.

(** The summary's WHERE clause has the conjuncts of the read path's in
    the other order. *)
Lemma summary_filter_same h since_time db :
  select_aggregates
    (match truthy h with
     | Some h' => fun r => (newer_than since_time r && hostname_is h' r)%bool
     | None => newer_than since_time
     end) db
  = select_aggregates (matches h since_time) db.
Proof.
  unfold select_aggregates, matches.
  destruct (truthy h) as [h'|]; [|reflexivity].
  rewrite (filter_ext_bool
             (fun r => (newer_than since_time r && hostname_is h' r)%bool)
             (fun r => (hostname_is h' r && newer_than since_time r)%bool));
    [reflexivity | intros a; apply andb_comm].
Qed.

Lemma get_summary_stats_run f now db h hours :
  get_summary_stats f now db h hours =
  if meets f [Connect; Cutoff; Execute; Fetch] then (EmptyDict, db)
  else if (representable (since now hours) && filter_binds h)%bool
       then (StatsRow (select_aggregates (matches h (since now hours)) db), db)
       else (EmptyDict, db).
Proof.
  rewrite <- summary_filter_same.
  unfold get_summary_stats, with_connection, meets, bind, hours_ago,
    minus_timedelta, execute_select, guarded, ret, filter_binds, since.
  generalize (now - 3600 * hours); intros z; simpl.
  destruct (f Connect); simpl; [reflexivity|].
  destruct (f Cutoff); simpl; [reflexivity|].
  destruct (representable z); simpl.
  - destruct (truthy h) as [h'|]; simpl;
      destruct (f Execute); simpl; try reflexivity;
      try (rewrite andb_true_r; destruct (encodable h'); simpl);
      try reflexivity; destruct (f Fetch); reflexivity.
  - destruct (f Execute); simpl; [reflexivity|].
    destruct (f Fetch); reflexivity.
Qed.

Lemma cleanup_old_data_run f now db days :
  cleanup_old_data f now db days =
  if meets f [Connect; Cutoff; Execute; Commit] then (0, db)
  else if representable (cutoff now days)
       then (snd (delete_older (cutoff now days) db),
             fst (delete_older (cutoff now days) db))
       else (0, db).
Proof.
  unfold cleanup_old_data, with_connection, meets, bind, days_ago,
    minus_timedelta, execute_delete, commit, guarded, ret, cutoff.
  generalize (now - 86400 * days); intros z; simpl.
  destruct (f Connect); simpl; [reflexivity|].
  destruct (f Cutoff); simpl; [reflexivity|].
  destruct (representable z); simpl.
  - destruct (f Execute); simpl; [reflexivity|].
    destruct (f Commit); reflexivity.
  - destruct (f Execute); simpl; [reflexivity|].
    destruct (f Commit); reflexivity.
Qed.

(** ** ORDER BY and LIMIT *)

Lemma insert_desc_perm r l : Permutation (r :: l) (insert_desc r l).
Proof.
  induction l as [|x l IH]; simpl; [apply Permutation_refl|].
  destruct (Z.leb (created_at x) (created_at r)); [apply Permutation_refl|].
  eapply Permutation_trans; [apply perm_swap|].
  apply perm_skip, IH.
Qed.

Lemma order_by_perm l : Permutation l (order_by_created_at_desc l).
Proof.
  induction l as [|x l IH]; simpl; [constructor|].
  eapply Permutation_trans; [apply perm_skip, IH|].
  apply insert_desc_perm.
Qed.

Lemma insert_desc_sorted r l :
  StronglySorted newest_first l -> StronglySorted newest_first (insert_desc r l).
Proof.
  induction l as [|x l IH]; intros S; simpl.
  - repeat constructor.
  - destruct (Z.leb (created_at x) (created_at r)) eqn:E.
    + apply Z.leb_le in E. constructor; [exact S|].
      inversion S as [|? ? S' F]; subst.
      constructor; [unfold newest_first; lia|].
      eapply Forall_impl; [|exact F].
      unfold newest_first; intros; lia.
    + apply Z.leb_gt in E.
      inversion S as [|? ? S' F]; subst.
      constructor; [apply IH, S'|].
      eapply Permutation_Forall; [apply insert_desc_perm|].
      constructor; [unfold newest_first; lia | exact F].
Qed.

Lemma order_by_sorted l : StronglySorted newest_first (order_by_created_at_desc l).
Proof.
  induction l as [|x l IH]; simpl; [constructor|].
  apply insert_desc_sorted, IH.
Qed.

Lemma In_firstn {A} (x : A) n l : In x (firstn n l) -> In x l.
Proof.
  revert n; induction l as [|y l IH]; intros [|n]; simpl; try tauto.
  intros [E|H]; [left; exact E | right; eapply IH; exact H].
Qed.

Lemma firstn_sorted {A} (R : A -> A -> Prop) n l :
  StronglySorted R l -> StronglySorted R (firstn n l).
Proof.
  revert n; induction l as [|x l IH]; intros [|n] S; simpl; try constructor.
  - inversion S; subst; auto.
  - inversion S as [|? ? S' F]; subst.
    rewrite Forall_forall in *; intros y Hy.
    apply F. eapply In_firstn; exact Hy.
Qed.

Lemma select_order_limit_in w db r :
  In r (select_order_limit w db) -> In r (metrics db) /\ w r = true.
Proof.
  unfold select_order_limit; intros H.
  apply In_firstn in H.
  apply (Permutation_in r (Permutation_sym (order_by_perm _))) in H.
  apply filter_In in H; exact H.
Qed.

Lemma select_order_limit_length w db :
  List.length (select_order_limit w db)
  = Nat.min LIMIT (List.length (filter w (metrics db))).
Proof.
  unfold select_order_limit.
  rewrite length_firstn.
  rewrite <- (Permutation_length (order_by_perm _)); reflexivity.
Qed.

Lemma select_order_limit_all w db :
  (List.length (filter w (metrics db)) <= LIMIT)%nat ->
  Permutation (filter w (metrics db)) (select_order_limit w db).
Proof.
  intros L; unfold select_order_limit.
  rewrite firstn_all2; [apply order_by_perm|].
  rewrite <- (Permutation_length (order_by_perm _)); exact L.
Qed.

Lemma hostname_is_eq h r : hostname_is h r = true -> hostname r = h.
Proof.
  unfold hostname_is, str_eqb.
  destruct (list_eq_dec N.eq_dec (hostname r) h); [auto | discriminate].
Qed.


(** ** Reading recent records *)

(** C2, as amended. Whatever the window, the database and the faults
    of the call, [get_recent_metrics] returns stored records only, each
    created after the cutoff [now - window], ordered newest first, at
    most 1000 of them, and leaves the database as it was; the records
    are those of the named host when a hostname that is not the empty
    string is given, and an empty hostname is taken as no filter. *)
Theorem C2_query_recent_window_host_order_cap :
  forall f now db hostname_filter hours,
    let rows := fst (get_recent_metrics f now db hostname_filter hours) in
    Forall (fun r => In r (metrics db)) rows
    /\ Forall (fun r => since now hours < created_at r) rows
    /\ (hostname_filter <> Some [] ->
        Forall (exact_hostname_match hostname_filter) rows)
    /\ StronglySorted newest_first rows
    /\ (List.length rows <= 1000)%nat
    /\ snd (get_recent_metrics f now db hostname_filter hours) = db
    /\ get_recent_metrics f now db (Some []) hours
       = get_recent_metrics f now db None hours.
Proof.
  intros f now db h hours; rewrite get_recent_metrics_run.
  destruct (meets f _); simpl.
  { repeat split; try constructor; lia. }
  destruct (representable (since now hours) && filter_binds h)%bool; simpl.
  2:{ repeat split; try constructor; lia. }
  assert (I : forall r, In r (select_order_limit (matches h (since now hours)) db)
              -> In r (metrics db) /\ matches h (since now hours) r = true)
    by (intros r; apply select_order_limit_in).
  repeat split.
  - apply Forall_forall; intros r Hr; apply I, Hr.
  - apply Forall_forall; intros r Hr; apply I in Hr as [_ M].
    unfold matches in M; destruct (truthy h).
    + apply andb_true_iff in M as [_ M]; apply Z.ltb_lt, M.
    + apply Z.ltb_lt, M.
  - intros Hne; apply Forall_forall; intros r Hr; apply I in Hr as [_ M].
    destruct h as [[|c t]|]; [contradiction | | exact Logic.I].
    unfold matches, truthy in M; simpl.
    apply andb_true_iff in M as [M _]; apply hostname_is_eq, M.
  - apply firstn_sorted, order_by_sorted.
  - rewrite select_order_limit_length; apply Nat.le_min_l.
Qed.

Lemma C2_query_recent_window_host_order_cap_witness :
  let db := snd (store_metrics no_faults 1000 init_database Sample.host_a) in
  Some (lit "host-a") <> Some []
  /\ Forall (exact_hostname_match (Some (lit "host-a")))
            (fst (get_recent_metrics no_faults 1000 db (Some (lit "host-a")) 1))
  /\ List.length (fst (get_recent_metrics no_faults 1000 db
                         (Some (lit "host-a")) 1)) = 1%nat.
Proof.
  cbv zeta.
  assert (N : Some (lit "host-a") <> Some (@nil N)) by discriminate.
  refine (conj N (conj _ eq_refl)).
  exact (proj1 (proj2 (proj2
    (C2_query_recent_window_host_order_cap no_faults 1000 _ _ 1))) N).
Defined.

(** C2 as stated fails for the empty hostname: given the filter [""],
    the read is not restricted to the hostname [""] but returns the
    records of every host. *)
Lemma C2_empty_hostname_returns_every_host :
  let db := snd (store_metrics no_faults 1000 init_database Sample.host_a) in
  let rows := fst (get_recent_metrics no_faults 1000 db (Some []) 1) in
  map hostname rows = [lit "host-a"]
  /\ ~ Forall (exact_hostname_match (Some [])) rows.
Proof.
  cbv zeta; split; [reflexivity|].
  intros F; inversion F as [|r l H _]; subst.
  unfold exact_hostname_match in H; discriminate.
Qed.

(** ** Summaries *)

(** C5, as amended. For every hostname filter that can be bound (no
    surrogate in it) and every window whose cutoff [now - window] is a
    datetime (years 1 to 9999), the count a [get_summary_stats] call
    that meets no fault reports is the number
    of records of the full matching set, while [get_recent_metrics]
    with the same filter at the same cutoff returns the smaller of 1000
    and that number: all of them when there are at most 1000, and 1000
    when there are more. *)
Theorem C5_summary_count_is_uncapped_total :
  forall now db h hours,
    representable (since now hours) = true ->
    filter_binds h = true ->
    let full := matching h (since now hours) db in
    count_of (fst (get_summary_stats no_faults now db h hours))
      = Some (Z.of_nat (List.length full))
    /\ List.length (fst (get_recent_metrics no_faults now db h hours))
      = Nat.min 1000 (List.length full)
    /\ ((List.length full <= 1000)%nat ->
        Permutation full (fst (get_recent_metrics no_faults now db h hours))).
Proof.
  intros now db h hours R B.
  rewrite get_summary_stats_run, get_recent_metrics_run, R, B; simpl.
  repeat split.
  - apply select_order_limit_length.
  - intros L; apply select_order_limit_all, L.
Qed.

Lemma C5_summary_count_is_uncapped_total_witness :
  let db := snd (store_metrics no_faults 1000 init_database Sample.host_a) in
  representable (since 1000 1) = true
  /\ filter_binds (Some (lit "host-a")) = true
  /\ count_of (fst (get_summary_stats no_faults 1000 db
                       (Some (lit "host-a")) 1)) = Some 1
  /\ List.length (fst (get_recent_metrics no_faults 1000 db
                         (Some (lit "host-a")) 1)) = 1%nat.
Proof.
  cbv zeta.
  assert (R : representable (since 1000 1) = true) by reflexivity.
  assert (F : filter_binds (Some (lit "host-a")) = true) by reflexivity.
  refine (conj R (conj F _)).
  destruct (C5_summary_count_is_uncapped_total 1000
              (snd (store_metrics no_faults 1000 init_database Sample.host_a))
              (Some (lit "host-a")) 1 R F) as (A & B & _).
  exact (conj A B).
Defined.

(** C5 as stated fails for a window whose cutoff is no datetime: with
    the clock at 2026-01-01 and a window of 18000000 hours the
    subtraction raises OverflowError; the summary is the empty dict,
    with no count, and the read is empty, while one record is newer
    than [now - window].  It fails too for a hostname that is a lone
    surrogate, which cannot be bound: no record matches, and the
    summary is the empty dict, with no count, not a count of 0. *)
Lemma C5_window_beyond_datetime_range :
  let now := 1767225600 in
  let db := snd (store_metrics no_faults now init_database Sample.host_a) in
  let h := Some Sample.surrogate_hostname in
  (List.length (matching None (since now 18000000) db) = 1%nat
   /\ get_summary_stats no_faults now db None 18000000 = (EmptyDict, db)
   /\ count_of (fst (get_summary_stats no_faults now db None 18000000)) = None
   /\ fst (get_recent_metrics no_faults now db None 18000000) = [])
  /\ (matching h (since now 1) db = []
      /\ count_of (fst (get_summary_stats no_faults now db h 1)) = None).
Proof.
  vm_compute; repeat split.
Qed.

(** C10, as amended. When no record matches the filter and the window,
    the window's cutoff [now - window] is a datetime (years 1 to 9999)
    and the hostname filter can be bound (no surrogate in it), a call
    of [get_summary_stats] that meets no fault returns
    the aggregate row with count 0 and every average and maximum NULL,
    which is not the empty dict a failed call returns. *)
Theorem C10_summary_of_empty_set :
  forall now db h hours,
    representable (since now hours) = true ->
    filter_binds h = true ->
    matching h (since now hours) db = [] ->
    fst (get_summary_stats no_faults now db h hours)
      = StatsRow (mkSummary 0 None None None None None None)
    /\ fst (get_summary_stats no_faults now db h hours) <> EmptyDict.
Proof.
  intros now db h hours R B E.
  rewrite get_summary_stats_run, R, B; simpl.
  unfold select_aggregates; unfold matching in E; rewrite E; simpl.
  split; [reflexivity | discriminate].
Qed.

Lemma C10_summary_of_empty_set_witness :
  representable (since 1000 24) = true
  /\ filter_binds None = true
  /\ matching None (since 1000 24) init_database = []
  /\ fst (get_summary_stats no_faults 1000 init_database None 24)
      = StatsRow (mkSummary 0 None None None None None None)
  /\ fst (get_summary_stats no_faults 1000 init_database None 24) <> EmptyDict.
Proof.
  refine (conj eq_refl (conj eq_refl (conj eq_refl _))).
  apply (C10_summary_of_empty_set 1000 init_database None 24); reflexivity.
Defined.

(** C10 as stated fails for a window whose cutoff is no datetime: on an
    empty database, with the clock at 2026-01-01 and a window of
    18000000 hours, the summary is the empty dict of a failed call.  So
    it is for a hostname that is a lone surrogate, which cannot be
    bound. *)
Lemma C10_window_beyond_datetime_range :
  (matching None (since 1767225600 18000000) init_database = []
   /\ fst (get_summary_stats no_faults 1767225600 init_database None 18000000)
      = EmptyDict)
  /\ (matching (Some Sample.surrogate_hostname) (since 1767225600 24)
        init_database = []
      /\ fst (get_summary_stats no_faults 1767225600 init_database
                (Some Sample.surrogate_hostname) 24)
         = EmptyDict).
Proof.
  vm_compute; repeat split.
Qed.

(** ** Failures of the backend *)

(** C8. In each of the four operations, a failure of any statement the
    operation runs (connecting, computing the cutoff, executing,
    fetching, committing) ends in the operation's failure value and the
    database as it was: [store_metrics] returns False,
    [get_recent_metrics] the empty list, [get_summary_stats] the empty
    dict and [cleanup_old_data] 0.  The operations are total functions:
    no exception leaves them. *)
Theorem C8_backend_failure_is_contained :
  forall f now db,
    (forall p,
        meets f [Connect; Execute; Commit] = true ->
        store_metrics f now db p = (false, db))
    /\ (forall h hours,
        meets f [Connect; Cutoff; Execute; Fetch] = true ->
        get_recent_metrics f now db h hours = ([], db))
    /\ (forall h hours,
        meets f [Connect; Cutoff; Execute; Fetch] = true ->
        get_summary_stats f now db h hours = (EmptyDict, db))
    /\ (forall days,
        meets f [Connect; Cutoff; Execute; Commit] = true ->
        cleanup_old_data f now db days = (0, db)).
Proof.
  intros f now db; repeat split; intros.
  - rewrite store_metrics_run, H; reflexivity.
  - rewrite get_recent_metrics_run, H; reflexivity.
  - rewrite get_summary_stats_run, H; reflexivity.
  - rewrite cleanup_old_data_run, H; reflexivity.
Qed.

Lemma C8_backend_failure_is_contained_witness :
  store_metrics Sample.commit_fails 1000 init_database Sample.host_a
    = (false, init_database)
  /\ get_recent_metrics Sample.fetch_fails 1000 init_database None 24
    = ([], init_database)
  /\ get_summary_stats Sample.fetch_fails 1000 init_database None 24
    = (EmptyDict, init_database)
  /\ cleanup_old_data Sample.commit_fails 1000 init_database 30
    = (0, init_database).
Proof.
  refine (conj _ (conj _ (conj _ _))).
  - apply (C8_backend_failure_is_contained Sample.commit_fails 1000 init_database);
      reflexivity.
  - apply (C8_backend_failure_is_contained Sample.fetch_fails 1000 init_database);
      reflexivity.
  - apply (C8_backend_failure_is_contained Sample.fetch_fails 1000 init_database);
      reflexivity.
  - apply (C8_backend_failure_is_contained Sample.commit_fails 1000 init_database);
      reflexivity.
Defined.

Example sample_body_is_valid :
  MetricsPayload.validate PyDatetime.fromisoformat
    (Sample.body (lit "2024-01-01T12:30:45+00:00") (lit "host-a"))
  = Accepted Sample.host_a.
Proof. reflexivity. Qed.

(** ** Retention *)

Lemma kept_not_older c r : negb (older_than c r) = kept c r.
Proof.
  unfold older_than, kept.
  destruct (Z.ltb_spec (created_at r) c), (Z.leb_spec c (created_at r));
    simpl; try reflexivity; lia.
Qed.

Lemma filter_filter {A} (p q : A -> bool) l :
  filter p (filter q l) = filter (fun a => q a && p a)%bool l.
Proof.
  induction l as [|a l IH]; simpl; [reflexivity|].
  destruct (q a); simpl; [destruct (p a)|]; rewrite IH; reflexivity.
Qed.

Lemma filter_split_length {A} (p : A -> bool) l :
  List.length l
  = (List.length (filter p l) + List.length (filter (fun a => negb (p a)) l))%nat.
Proof.
  induction l as [|a l IH]; simpl; [reflexivity|].
  destruct (p a); simpl; lia.
Qed.

Lemma filter_none {A} (p : A -> bool) l :
  (forall a, In a l -> p a = false) -> filter p l = [].
Proof.
  induction l as [|a l IH]; simpl; intros H; [reflexivity|].
  rewrite (H a (or_introl eq_refl)); apply IH; intros; apply H; right; assumption.
Qed.

(** C4, as amended. For every retention duration whose cutoff
    [now - duration] is a datetime (years 1 to 9999), a sweep that meets
    no fault leaves exactly the records whose [created_at] is at or
    after the cutoff, each as it was and in the same order, and returns
    the number of records it removed, which are those with [created_at]
    before the cutoff; only [created_at] is looked at.  For any other
    duration the sweep deletes nothing and returns 0. *)
Theorem C4_expire_deletes_older_only :
  forall now db days,
    let c := cutoff now days in
    let n := fst (cleanup_old_data no_faults now db days) in
    let db' := snd (cleanup_old_data no_faults now db days) in
    if representable c
    then metrics db' = filter (kept c) (metrics db)
         /\ n = Z.of_nat (List.length (filter (older_than c) (metrics db)))
         /\ Z.of_nat (List.length (metrics db))
            = n + Z.of_nat (List.length (metrics db'))
         /\ Forall (fun r => c <= created_at r) (metrics db')
         /\ Forall (fun r => created_at r < c -> ~ In r (metrics db'))
                   (metrics db)
         /\ sqlite_sequence db' = sqlite_sequence db
    else n = 0 /\ db' = db.
Proof.
  intros now db days; rewrite cleanup_old_data_run; simpl.
  destruct (representable (cutoff now days)); simpl; [|split; reflexivity].
  assert (E : filter (fun r => negb (older_than (cutoff now days) r)) (metrics db)
              = filter (kept (cutoff now days)) (metrics db))
    by (apply filter_ext_bool; intros; apply kept_not_older).
  rewrite E.
  refine (conj eq_refl (conj eq_refl (conj _ (conj _ (conj _ eq_refl))))).
  - rewrite (filter_split_length (older_than (cutoff now days)) (metrics db)), E.
    lia.
  - apply Forall_forall; intros r Hr.
    apply filter_In in Hr as [_ K]; apply Z.leb_le, K.
  - apply Forall_forall; intros r _ Hlt Hin.
    apply filter_In in Hin as [_ K]; apply Z.leb_le in K; lia.
Qed.

(** C4 as stated fails for a duration whose cutoff is no datetime: with
    the clock at 2026-01-01 and a retention of -10000000 days the
    subtraction raises OverflowError; the record, created before
    [now - duration], stays and the sweep returns 0. *)
Lemma C4_retention_beyond_datetime_range :
  let now := 1767225600 in
  let db := snd (store_metrics no_faults now init_database Sample.host_a) in
  map created_at (metrics db) = [now]
  /\ now < cutoff now (-10000000)
  /\ cleanup_old_data no_faults now db (-10000000) = (0, db).
Proof.
  vm_compute; repeat split.
Qed.

Lemma sweep_run now db days :
  representable (cutoff now days) = true ->
  cleanup_old_data no_faults now db days
  = (Z.of_nat (List.length (filter (older_than (cutoff now days)) (metrics db))),
     mkDatabase (filter (kept (cutoff now days)) (metrics db))
                (sqlite_sequence db)).
Proof.
  intros R; rewrite cleanup_old_data_run, R; simpl; unfold delete_older.
  rewrite (filter_ext_bool (fun r => negb (older_than (cutoff now days) r))
             (kept (cutoff now days)));
    [reflexivity | intros; apply kept_not_older].
Qed.

Lemma kept_and_older c c' (l : list MetricsRow) :
  filter (older_than c') (filter (kept c) l)
  = filter (fun r => kept c r && older_than c' r)%bool l.
Proof. apply filter_filter. Qed.

Lemma kept_idempotent c (l : list MetricsRow) :
  filter (kept c) (filter (kept c) l) = filter (kept c) l.
Proof.
  rewrite filter_filter; apply filter_ext_bool; intros r.
  destruct (kept c r); reflexivity.
Qed.

(** C7, as amended. After a sweep that met no fault, a second sweep of
    the same retention run at the same clock reading returns 0 and
    deletes nothing, whatever faults it meets.  Run at another clock
    reading, with no write in between and both cutoffs datetimes, it
    deletes exactly the records created at or after the first cutoff
    and before the second, and returns their number: what it leaves are
    the records of the first sweep's table at or after the second
    cutoff. *)
Theorem C7_expire_twice :
  forall f now now' db days,
    representable (cutoff now days) = true ->
    representable (cutoff now' days) = true ->
    let db1 := snd (cleanup_old_data no_faults now db days) in
    let deleted := filter (older_than (cutoff now' days)) (metrics db1) in
    cleanup_old_data f now db1 days = (0, db1)
    /\ metrics (snd (cleanup_old_data no_faults now' db1 days))
       = filter (kept (cutoff now' days)) (metrics db1)
    /\ fst (cleanup_old_data no_faults now' db1 days)
       = Z.of_nat (List.length deleted)
    /\ deleted
       = filter (fun r => kept (cutoff now days) r
                          && older_than (cutoff now' days) r)%bool
                (metrics db).
Proof.
  intros f now now' db days R R' db1 deleted.
  assert (D : db1 = mkDatabase (filter (kept (cutoff now days)) (metrics db))
                               (sqlite_sequence db))
    by (unfold db1; rewrite (sweep_run _ _ _ R); reflexivity).
  unfold deleted; clearbody db1; subst db1; simpl.
  refine (conj _ (conj _ (conj _ (kept_and_older _ _ _)))).
  - rewrite cleanup_old_data_run; destruct (meets f _); [reflexivity|].
    rewrite R; unfold delete_older; simpl.
    rewrite (filter_ext_bool (fun r => negb (older_than (cutoff now days) r))
               (kept (cutoff now days))) by (intros; apply kept_not_older).
    rewrite kept_idempotent, filter_filter, filter_none; [reflexivity|].
    intros r _; unfold kept, older_than.
    destruct (Z.leb_spec (cutoff now days) (created_at r)),
             (Z.ltb_spec (created_at r) (cutoff now days));
      simpl; try reflexivity; lia.
  - rewrite (sweep_run _ _ _ R'); reflexivity.
  - rewrite (sweep_run _ _ _ R'); reflexivity.
Qed.

Lemma C7_expire_twice_witness :
  let t := 1000 + 86400 * 30 in
  let db := snd (store_metrics no_faults 1000 init_database Sample.host_a) in
  let db1 := snd (cleanup_old_data no_faults t db 30) in
  representable (cutoff t 30) = true
  /\ representable (cutoff (t + 1) 30) = true
  /\ cleanup_old_data no_faults t db1 30 = (0, db1)
  /\ metrics (snd (cleanup_old_data no_faults (t + 1) db1 30)) = []
  /\ fst (cleanup_old_data no_faults (t + 1) db1 30) = 1.
Proof.
  cbv zeta.
  assert (R : representable (cutoff (1000 + 86400 * 30) 30) = true)
    by reflexivity.
  assert (R' : representable (cutoff (1000 + 86400 * 30 + 1) 30) = true)
    by reflexivity.
  refine (conj R (conj R' _)).
  destruct (C7_expire_twice no_faults _ _
              (snd (store_metrics no_faults 1000 init_database Sample.host_a))
              30 R R') as (A & B & C & _).
  exact (conj A (conj B C)).
Defined.

(** C7 as stated fails: a record created exactly at the first sweep's
    cutoff survives that sweep, is older than the cutoff of a second
    sweep run one second later, and is counted by it. *)
Lemma C7_second_sweep_can_delete :
  let db0 := snd (store_metrics no_faults 1000 init_database Sample.host_a) in
  let db1 := snd (cleanup_old_data no_faults (1000 + 86400 * 30) db0 30) in
  fst (cleanup_old_data no_faults (1000 + 86400 * 30) db0 30) = 0
  /\ db1 = db0
  /\ fst (cleanup_old_data no_faults (1000 + 86400 * 30 + 1) db1 30) = 1
  /\ fst (cleanup_old_data no_faults (1000 + 86400 * 30 + 1) db1 30) <> 0.
Proof.
  vm_compute; repeat split; discriminate.
Qed.

(** ** Round trip of a stored snapshot *)








(** ** The invariant of the stored records *)

Lemma StronglySorted_snoc {A} (R : A -> A -> Prop) l a :
  StronglySorted R l -> Forall (fun x => R x a) l -> StronglySorted R (l ++ [a]).
Proof.
  induction 1 as [|x l S IH F]; intros Fa; simpl.
  - repeat constructor.
  - inversion Fa; subst. constructor; [apply IH; assumption|].
    apply Forall_app; split; [assumption | repeat constructor; assumption].
Qed.

Lemma StronglySorted_filter {A} (R : A -> A -> Prop) (p : A -> bool) l :
  StronglySorted R l -> StronglySorted R (filter p l).
Proof.
  induction 1 as [|x l S IH F]; simpl; [constructor|].
  destruct (p x); [|exact IH].
  constructor; [exact IH|].
  rewrite Forall_forall in *; intros y Hy.
  apply filter_In in Hy as [Hy _]; apply F, Hy.
Qed.

Lemma Forall_filter {A} (P : A -> Prop) (p : A -> bool) l :
  Forall P l -> Forall P (filter p l).
Proof.
  rewrite !Forall_forall; intros F y Hy.
  apply filter_In in Hy as [Hy _]; apply F, Hy.
Qed.

Lemma well_ordered_later t t' db :
  t <= t' -> well_ordered t db -> well_ordered t' db.
Proof.
  intros L [S F]; split; [exact S|].
  eapply Forall_impl; [|exact F]; simpl; intros r [? ?]; split; lia.
Qed.

Lemma well_ordered_insert t now p db :
  t <= now -> well_ordered t db -> well_ordered now (insert_row now p db).
Proof.
  intros L [S F]; unfold well_ordered, insert_row; simpl; split.
  - apply StronglySorted_snoc; [exact S|].
    eapply Forall_impl; [|exact F]; simpl.
    intros r [? ?]; unfold inserted_before; simpl; lia.
  - apply Forall_app; split.
    + eapply Forall_impl; [|exact F]; simpl; intros r [? ?]; lia.
    + repeat constructor; simpl; lia.
Qed.

Lemma well_ordered_delete t c db :
  well_ordered t db -> well_ordered t (fst (delete_older c db)).
Proof.
  intros [S F]; unfold well_ordered, delete_older; simpl; split.
  - apply StronglySorted_filter, S.
  - apply Forall_filter, F.
Qed.

Lemma well_ordered_call t f now c db :
  t <= now -> well_ordered t db -> well_ordered now (call f now c db).
Proof.
  intros L W; destruct c as [p|h hours|h hours|days]; simpl.
  - rewrite store_metrics_run; destruct (meets f _); simpl.
    + eapply well_ordered_later; eassumption.
    + destruct (bindable p); simpl.
      * eapply well_ordered_insert; eassumption.
      * eapply well_ordered_later; eassumption.
  - rewrite get_recent_metrics_run;
      destruct (meets f _); [|destruct (_ && _)%bool];
      simpl; eapply well_ordered_later; eassumption.
  - rewrite get_summary_stats_run;
      destruct (meets f _); [|destruct (_ && _)%bool];
      simpl; eapply well_ordered_later; eassumption.
  - rewrite cleanup_old_data_run;
      destruct (meets f _); [|destruct (representable _)];
      simpl; try (eapply well_ordered_later; eassumption).
    apply (well_ordered_delete now (cutoff now days) db).
    eapply well_ordered_later; eassumption.
Qed.

Lemma ordered_well_ordered t db :
  reachable_in_clock_order t db -> well_ordered t db.
Proof.
  induction 1 as [t|t db f now c _ IH L].
  - split; constructor.
  - apply well_ordered_call with (t := t); assumption.
Qed.

Lemma ids_ordered_later t t' db :
  t <= t' -> ids_ordered t db -> ids_ordered t' db.
Proof.
  intros L [S F]; split; [exact S|].
  eapply Forall_impl; [|exact F]; simpl; intros r [? ?]; split; lia.
Qed.

Lemma ids_ordered_insert t now p db :
  ids_ordered t db -> ids_ordered (Z.max t now) (insert_row now p db).
Proof.
  intros [S F]; unfold ids_ordered, insert_row; simpl; split.
  - apply StronglySorted_snoc; [exact S|].
    eapply Forall_impl; [|exact F]; simpl.
    intros r [? ?]; unfold id_before; simpl; lia.
  - apply Forall_app; split.
    + eapply Forall_impl; [|exact F]; simpl; intros r [? ?]; lia.
    + repeat constructor; simpl; lia.
Qed.

Lemma ids_ordered_delete t c db :
  ids_ordered t db -> ids_ordered t (fst (delete_older c db)).
Proof.
  intros [S F]; unfold ids_ordered, delete_older; simpl; split.
  - apply StronglySorted_filter, S.
  - apply Forall_filter, F.
Qed.

Lemma ids_ordered_call t f now c db :
  ids_ordered t db -> ids_ordered (Z.max t now) (call f now c db).
Proof.
  intros W.
  assert (W' : ids_ordered (Z.max t now) db)
    by (eapply ids_ordered_later; [apply Z.le_max_l | exact W]).
  destruct c as [p|h hours|h hours|days]; simpl.
  - rewrite store_metrics_run; destruct (meets f _); simpl; [exact W'|].
    destruct (bindable p); simpl; [apply ids_ordered_insert, W | exact W'].
  - rewrite get_recent_metrics_run;
      destruct (meets f _); [|destruct (_ && _)%bool]; exact W'.
  - rewrite get_summary_stats_run;
      destruct (meets f _); [|destruct (_ && _)%bool]; exact W'.
  - rewrite cleanup_old_data_run;
      destruct (meets f _); [|destruct (representable _)];
      simpl; try exact W'.
    apply ids_ordered_delete, W'.
Qed.

Lemma reachable_ids_ordered t db : reachable t db -> ids_ordered t db.
Proof.
  induction 1 as [t|t db f now c _ IH].
  - split; constructor.
  - apply ids_ordered_call, IH.
Qed.

Lemma sorted_lt_NoDup (l : list Z) : StronglySorted Z.lt l -> NoDup l.
Proof.
  induction 1 as [|x l S IH F]; constructor; [|exact IH].
  intros Hin; rewrite Forall_forall in F; specialize (F x Hin); lia.
Qed.

Lemma id_before_sorted (l : list MetricsRow) :
  StronglySorted id_before l -> StronglySorted Z.lt (map id l).
Proof.
  induction 1 as [|x l S IH F]; simpl; constructor; [exact IH|].
  apply Forall_map; exact F.
Qed.

Lemma sorted_ids (l : list MetricsRow) :
  StronglySorted inserted_before l -> StronglySorted id_before l.
Proof.
  induction 1 as [|x l S IH F]; simpl; constructor; [exact IH|].
  eapply Forall_impl; [|exact F].
  intros r [? _]; assumption.
Qed.

Lemma sorted_created_at_follows_id (l : list MetricsRow) :
  StronglySorted inserted_before l ->
  forall r1 r2, In r1 l -> In r2 l -> id r1 < id r2 -> created_at r1 <= created_at r2.
Proof.
  induction 1 as [|x l S IH F]; intros r1 r2 H1 H2 Hlt; [contradiction|].
  rewrite Forall_forall in F.
  destruct H1 as [<-|H1], H2 as [<-|H2].
  - lia.
  - apply (F r2 H2).
  - destruct (F r1 H1); lia.
  - apply IH; assumption.
Qed.

Lemma ids_ordered_invariant t db : ids_ordered t db -> ids_invariant db.
Proof.
  intros [S _]; pose proof (id_before_sorted _ S) as I.
  exact (conj (sorted_lt_NoDup _ I) I).
Qed.

Lemma well_ordered_invariant t db :
  well_ordered t db -> stored_record_invariant db.
Proof.
  intros [S _]; unfold stored_record_invariant.
  pose proof (id_before_sorted _ (sorted_ids _ S)) as I.
  refine (conj (sorted_lt_NoDup _ I) (conj I _)).
  exact (sorted_created_at_follows_id _ S).
Qed.

(** C9, as amended. In every database reached by a run from the
    initialised store, with calls made one at a time, the ids of the
    stored records are unique and increase strictly in insertion order,
    and every further call (store, read, summary or sweep, failing or
    not) leaves a database in which this holds.  When the clock
    readings of the run never go back, [created_at] moreover does not
    decrease as the id grows, and every further call at a clock reading
    not before the last one keeps that too. *)
Theorem C9_ids_and_created_at_ordered :
  forall t db,
    (reachable t db ->
     ids_invariant db
     /\ forall f now c, ids_invariant (call f now c db))
    /\ (reachable_in_clock_order t db ->
        stored_record_invariant db
        /\ forall f now c,
            t <= now -> stored_record_invariant (call f now c db)).
Proof.
  intros t db; split; intros R.
  - split.
    + eapply ids_ordered_invariant, reachable_ids_ordered, R.
    + intros f now c.
      eapply ids_ordered_invariant, reachable_ids_ordered.
      apply reach_call, R.
  - split.
    + eapply well_ordered_invariant, ordered_well_ordered, R.
    + intros f now c L.
      eapply well_ordered_invariant, ordered_well_ordered.
      eapply ordered_call; eassumption.
Qed.

Lemma C9_ids_and_created_at_ordered_witness :
  let db := call no_faults 1000 (Store Sample.host_a) init_database in
  reachable 1000 db
  /\ reachable_in_clock_order 1000 db
  /\ ids_invariant (call no_faults 500 (Store Sample.host_a) db)
  /\ stored_record_invariant db
  /\ stored_record_invariant (call no_faults 2000 (Store Sample.host_a) db).
Proof.
  cbv zeta.
  assert (R : reachable 1000
                (call no_faults 1000 (Store Sample.host_a) init_database))
    by (apply (reach_call 0 init_database no_faults 1000), reach_init).
  assert (O : reachable_in_clock_order 1000
                (call no_faults 1000 (Store Sample.host_a) init_database))
    by (apply ordered_call with (t := 0); [apply ordered_init | lia]).
  refine (conj R (conj O _)).
  destruct (C9_ids_and_created_at_ordered 1000
              (call no_faults 1000 (Store Sample.host_a) init_database))
    as [A B].
  destruct (A R) as [_ A2], (B O) as [B1 B2].
  refine (conj (A2 no_faults 500 (Store Sample.host_a))
               (conj B1 (B2 no_faults 2000 (Store Sample.host_a) _))); lia.
Defined.

(** C9 as stated fails for [created_at]: it is the wall clock at the
    insert.  When the clock is set back between two stores of a single
    writer, the record with the larger id carries the earlier
    [created_at]. *)
Lemma C9_clock_set_back_breaks_created_at_order :
  let db1 := call no_faults 1000 (Store Sample.host_a) init_database in
  let db2 := call no_faults 500 (Store Sample.host_a) db1 in
  reachable 1000 db2
  /\ map (fun r => (id r, created_at r)) (metrics db2) = [(1, 1000); (2, 500)]
  /\ ~ created_at_follows_id db2
  /\ ~ stored_record_invariant db2.
Proof.
  cbv zeta.
  set (db1 := call no_faults 1000 (Store Sample.host_a) init_database).
  set (db2 := call no_faults 500 (Store Sample.host_a) db1).
  assert (R : reachable 1000 db2).
  { apply (reach_call 1000 db1 no_faults 500).
    apply (reach_call 0 init_database no_faults 1000), reach_init. }
  assert (N : ~ created_at_follows_id db2).
  { intros H.
    assert (I1 : In (nth 0 (metrics db2) (mkRow 0 [] [] 0 0 0 0 0 [] None
                                            Sample.host_a 0)) (metrics db2))
      by (left; reflexivity).
    assert (I2 : In (nth 1 (metrics db2) (mkRow 0 [] [] 0 0 0 0 0 [] None
                                            Sample.host_a 0)) (metrics db2))
      by (right; left; reflexivity).
    specialize (H _ _ I1 I2); vm_compute in H.
    apply H; reflexivity. }
  refine (conj R (conj eq_refl (conj N _))).
  intros (_ & _ & H); exact (N H).
Qed.

(** ** Validation names every violated field *)

Lemma names_ap_l {A B} (f : Validated (A -> B)) (x : Validated A) l :
  names f l -> names (ap f x) l.
Proof.
  unfold names; destruct f as [g|es], x as [a|es']; simpl; try tauto.
  rewrite map_app, in_app_iff; tauto.
Qed.

Lemma names_ap_r {A B} (f : Validated (A -> B)) (x : Validated A) l :
  names x l -> names (ap f x) l.
Proof.
  unfold names; destruct f as [g|es], x as [a|es']; simpl; try tauto.
  rewrite map_app, in_app_iff; tauto.
Qed.

Lemma names_at_loc {A} k (v : Validated A) l :
  names v l -> names (at_loc k v) (k :: l).
Proof.
  unfold names; destruct v as [a|es]; simpl; [tauto|].
  unfold under; rewrite map_map; simpl.
  intros H; apply in_map_iff in H as (e & <- & He).
  apply in_map_iff; exists e; split; [reflexivity | exact He].
Qed.

Lemma names_fail {A} k : names (@fail A k) [].
Proof. left; reflexivity. Qed.

Lemma names_required_missing {A B} name (check : A -> Validated B) :
  names (required name None check) [Key name].
Proof. unfold required; apply names_at_loc, names_fail. Qed.

Lemma names_required {A B} name a (check : A -> Validated B) l :
  names (check a) l -> names (required name (Some a) check) (Key name :: l).
Proof. unfold required; apply names_at_loc. Qed.

Lemma names_with_default {A} name d a (check : A -> Validated A) l :
  names (check a) l -> names (with_default name d (Some a) check) (Key name :: l).
Proof. unfold with_default; apply names_at_loc. Qed.

Lemma names_optional {A B} name a (check : A -> Validated B) l :
  names (check a) l -> names (optional name (Some a) check) (Key name :: l).
Proof. intros H; unfold optional; apply names_at_loc, names_ap_r, H. Qed.

Lemma names_percent_range x : outside_percent x -> names (percent_range x) [].
Proof.
  unfold outside_percent, percent_range, float_ge_le; intros H.
  destruct (Qle_bool 0 x) eqn:E1; simpl; [|apply names_fail].
  destruct (Qle_bool x 100) eqn:E2; simpl; [|apply names_fail].
  exfalso; apply H; split; apply Qle_bool_iff; assumption.
Qed.

Lemma names_float_ge x : ~ (0 <= x)%Q -> names (float_ge 0 x) [].
Proof.
  unfold float_ge; intros H.
  destruct (Qle_bool 0 x) eqn:E; [|apply names_fail].
  exfalso; apply H, Qle_bool_iff, E.
Qed.

Lemma names_int_gt x : ~ 0 < x -> names (int_gt 0 x) [].
Proof.
  unfold int_gt; intros H.
  destruct (Z.ltb_spec 0 x); [contradiction | apply names_fail].
Qed.

Lemma names_int_ge x : x < 0 -> names (int_ge 0 x) [].
Proof.
  unfold int_ge; intros H.
  destruct (Z.leb_spec 0 x); [lia | apply names_fail].
Qed.

Lemma names_str_length lo hi v :
  ~ (lo <= len v <= hi) -> names (str_length lo hi v) [].
Proof.
  unfold str_length; intros H.
  destruct (Z.ltb_spec (len v) lo); [apply names_fail|].
  destruct (Z.ltb_spec hi (len v)); [apply names_fail|].
  exfalso; apply H; lia.
Qed.

Lemma names_validate_timestamp fromisoformat v :
  unparseable fromisoformat v ->
  names (SystemMetrics.validate_timestamp fromisoformat v) [].
Proof.
  unfold unparseable, SystemMetrics.validate_timestamp; intros ->.
  apply names_fail.
Qed.

(** A violated constraint of a field is named by the field's check. *)
Lemma field_percent name v :
  snd (req_percent name v) -> names (required name v percent_range) [Key name].
Proof.
  intros [->|(a & -> & H)];
    [apply names_required_missing | apply names_required, names_percent_range, H].
Qed.

Lemma field_positive name v :
  snd (req_positive name v) -> names (required name v (int_gt 0)) [Key name].
Proof.
  intros [->|(a & -> & H)];
    [apply names_required_missing | apply names_required, names_int_gt, H].
Qed.

Lemma field_nonneg name v :
  snd (req_nonneg name v) -> names (required name v (int_ge 0)) [Key name].
Proof.
  intros [->|(a & -> & H)];
    [apply names_required_missing | apply names_required, names_int_ge, H].
Qed.

Lemma field_opt_nonneg name v :
  snd (opt_nonneg name v) -> names (with_default name 0 v (int_ge 0)) [Key name].
Proof.
  intros (a & -> & H); apply names_with_default, names_int_ge, H.
Qed.

Lemma field_any {A} name (v : option A) :
  snd (req_any name v) -> names (required name v any) [Key name].
Proof. intros ->; apply names_required_missing. Qed.

Create HintDb names.
#[local] Hint Resolve field_percent field_positive field_nonneg
  field_opt_nonneg field_any : names.

(** Finds the field of a model whose check names the path. *)
Ltac find_field :=
  first [ apply names_ap_r; solve [auto with names]
        | apply names_ap_l; find_field ].

(** Takes a violated constraint of a table apart, one entry at a time. *)
Ltac each_constraint H :=
  let P := fresh "P" in
  let Hin := fresh "Hin" in
  let HP := fresh "HP" in
  destruct H as (P & Hin & HP); simpl in Hin;
  repeat (destruct Hin as [Hin|Hin];
          [injection Hin as <- <-|]);
  try contradiction.

Lemma cpu_named r l :
  violated (cpu_constraints r) l -> names (CPUMetrics.validate r) l.
Proof.
  intros H; each_constraint H; unfold CPUMetrics.validate; find_field.
Qed.

Lemma memory_named r l :
  violated (memory_constraints r) l -> names (MemoryMetrics.validate r) l.
Proof.
  intros H; each_constraint H; unfold MemoryMetrics.validate; find_field.
Qed.

Lemma swap_named r l :
  violated (swap_constraints r) l -> names (SwapMetrics.validate r) l.
Proof.
  intros H; each_constraint H; unfold SwapMetrics.validate; find_field.
Qed.

Lemma disk_named r l :
  violated (disk_constraints r) l -> names (DiskMetrics.validate r) l.
Proof.
  intros H; each_constraint H; unfold DiskMetrics.validate; find_field.
Qed.

Lemma network_named r l :
  violated (network_constraints r) l -> names (NetworkMetrics.validate r) l.
Proof.
  intros H; each_constraint H; unfold NetworkMetrics.validate; find_field.
Qed.

Lemma process_named r l :
  violated (process_constraints r) l -> names (ProcessMetrics.validate r) l.
Proof.
  intros H; each_constraint H; unfold ProcessMetrics.validate;
    try find_field.
  apply names_ap_l, names_ap_r.
  destruct HP as [->|(a & -> & H)];
    [apply names_required_missing | apply names_required, names_float_ge, H].
Qed.

Lemma violated_app a b l :
  violated (a ++ b) l -> violated a l \/ violated b l.
Proof.
  intros (P & Hin & HP); apply in_app_or in Hin as [Hin|Hin];
    [left | right]; exists P; split; assumption.
Qed.

Lemma violated_cons c cs l :
  violated (c :: cs) l -> (l = fst c /\ snd c) \/ violated cs l.
Proof.
  intros (P & [->|Hin] & HP); [left; split; [reflexivity | exact HP]|].
  right; exists P; split; assumption.
Qed.

Lemma violated_prefix k cs l :
  violated (prefix k cs) l -> exists l', l = k :: l' /\ violated cs l'.
Proof.
  intros (P & Hin & HP); unfold prefix in Hin.
  apply in_map_iff in Hin as ([l' P'] & E & Hin); simpl in E.
  injection E as <- <-.
  exists l'; split; [reflexivity|]; exists P'; split; assumption.
Qed.

Lemma violated_nil l : ~ violated [] l.
Proof. intros (P & [] & _). Qed.

Lemma items_named {A B} (cs : A -> Constraints) (check : A -> Validated B) :
  (forall a l, violated (cs a) l -> names (check a) l) ->
  forall items i l,
    violated (items_from i cs items) l -> names (each_from i check items) l.
Proof.
  intros Hc; induction items as [|a items IH]; intros i l H; simpl in H.
  - destruct (violated_nil _ H).
  - change (each_from i check (a :: items))
      with (ap (ap (Accepted cons) (at_loc (Index i) (check a)))
               (each_from (S i) check items)).
    apply violated_app in H as [H|H].
    + apply violated_prefix in H as (l' & -> & H).
      apply names_ap_l, names_ap_r, names_at_loc, Hc, H.
    + apply names_ap_r, IH, H.
Qed.

Lemma req_nested_named {A B} name (v : option A) (cs : A -> Constraints)
  (check : A -> Validated B) l :
  (forall a l', violated (cs a) l' -> names (check a) l') ->
  violated (req_nested name v cs) l -> names (required name v check) l.
Proof.
  intros Hc H; unfold req_nested in H.
  apply violated_cons in H as [[-> M]|H].
  - simpl in M; unfold missing in M; subst v; apply names_required_missing.
  - destruct v as [a|]; [|destruct (violated_nil _ H)].
    apply violated_prefix in H as (l' & -> & H).
    apply names_required, Hc, H.
Qed.

Lemma opt_nested_named {A B} name (v : option A) (cs : A -> Constraints)
  (check : A -> Validated B) l :
  (forall a l', violated (cs a) l' -> names (check a) l') ->
  violated (opt_nested name v cs) l -> names (optional name v check) l.
Proof.
  intros Hc H; unfold opt_nested in H.
  destruct v as [a|]; [|destruct (violated_nil _ H)].
  apply violated_prefix in H as (l' & -> & H).
  apply names_optional, Hc, H.
Qed.

Lemma snapshot_named fromisoformat r l :
  violated (snapshot_constraints fromisoformat r) l ->
  names (SystemMetrics.validate fromisoformat r) l.
Proof.
  unfold snapshot_constraints, SystemMetrics.validate; intros H.
  apply violated_cons in H as [[-> T]|H].
  { do 8 apply names_ap_l; apply names_ap_r; simpl in T.
    destruct T as [->|(a & -> & U)];
      [apply names_required_missing
      | apply names_required, names_validate_timestamp, U]. }
  apply violated_cons in H as [[-> T]|H].
  { do 7 apply names_ap_l; apply names_ap_r, field_any, T. }
  apply violated_app in H as [H|H].
  { do 6 apply names_ap_l; apply names_ap_r.
    eapply req_nested_named; [apply cpu_named | exact H]. }
  apply violated_app in H as [H|H].
  { do 5 apply names_ap_l; apply names_ap_r.
    eapply req_nested_named; [apply memory_named | exact H]. }
  apply violated_app in H as [H|H].
  { do 4 apply names_ap_l; apply names_ap_r.
    eapply req_nested_named; [apply swap_named | exact H]. }
  apply violated_app in H as [H|H].
  { do 3 apply names_ap_l; apply names_ap_r.
    eapply req_nested_named; [|exact H].
    intros a l'; apply items_named, disk_named. }
  apply violated_app in H as [H|H].
  { do 2 apply names_ap_l; apply names_ap_r.
    eapply opt_nested_named; [apply network_named | exact H]. }
  apply names_ap_l, names_ap_r.
  eapply opt_nested_named; [|exact H].
  intros a l'; apply items_named, process_named.
Qed.

Lemma payload_named fromisoformat r l :
  violated (payload_constraints len fromisoformat r) l ->
  names (MetricsPayload.validate fromisoformat r) l.
Proof.
  unfold payload_constraints, MetricsPayload.validate; intros H.
  apply violated_cons in H as [[-> T]|H].
  - apply names_ap_l, names_ap_r; simpl in T.
    destruct T as [->|(a & -> & U)];
      [apply names_required_missing
      | apply names_required, names_str_length, U].
  - apply names_ap_r.
    eapply req_nested_named; [apply snapshot_named | exact H].
Qed.

(** C3, as amended. For every request body that violates a constraint
    the validator enforces (a required field missing, a number outside
    its range, a payload hostname of fewer than 1 or more than 255
    characters, a timestamp that does not parse), validation rejects the
    body and the failure names the field of every violated constraint;
    the endpoint answers with that failure (each path under [body])
    whatever the state of the store, the clock and the backend, and
    leaves the database as it was, so a resubmission is rejected
    identically. *)
Theorem C3_invalid_body_rejected_naming_every_field :
  forall fromisoformat body l,
    violated (payload_constraints len fromisoformat body) l ->
    exists errors,
      MetricsPayload.validate fromisoformat body = Rejected errors
      /\ In l (map loc errors)
      /\ (forall adapter f now db,
            post_ingest fromisoformat adapter f now db body
            = (RequestValidationError (under (Key "body") errors), db)).
Proof.
  intros fromisoformat body l V.
  apply payload_named in V; unfold names in V.
  destruct (MetricsPayload.validate fromisoformat body) as [p|errors] eqn:E;
    simpl in V; [contradiction|].
  exists errors; refine (conj eq_refl (conj V _)).
  intros adapter f now db; unfold post_ingest; rewrite E; reflexivity.
Qed.

Lemma C3_invalid_body_rejected_naming_every_field_witness :
  violated (payload_constraints len PyDatetime.fromisoformat Sample.memory_150)
    [Key "metrics"; Key "memory"; Key "percent"]
  /\ exists errors,
      MetricsPayload.validate PyDatetime.fromisoformat Sample.memory_150
        = Rejected errors
      /\ In [Key "metrics"; Key "memory"; Key "percent"] (map loc errors)
      /\ (forall adapter f now db,
            post_ingest PyDatetime.fromisoformat adapter f now db
              Sample.memory_150
            = (RequestValidationError (under (Key "body") errors), db)).
Proof.
  assert (V : violated
                (payload_constraints len PyDatetime.fromisoformat Sample.memory_150)
                [Key "metrics"; Key "memory"; Key "percent"]).
  { eexists; split.
    - simpl; repeat first [left; reflexivity | right].
    - right; exists (150 # 1)%Q; split; [reflexivity|].
      intros [_ H]; unfold Qle in H; simpl in H; lia. }
  exact (conj V (C3_invalid_body_rejected_naming_every_field _ _ _ V)).
Defined.

(** C3 as stated fails for the hostname.  A payload whose hostname has
    200 characters of two bytes each is 400 bytes long, outside the data
    model's bound of 255 bytes, and is accepted and stored; and the
    snapshot's own hostname field is accepted when it is empty. *)
Lemma C3_hostname_bounds_not_enforced_as_stated :
  let ts := lit "2024-01-01T12:30:45+00:00" in
  (~ spec_hostname_bounds Sample.long_hostname
   /\ MetricsPayload.validate PyDatetime.fromisoformat
        (Sample.body ts Sample.long_hostname)
      = Accepted (Sample.payload ts Sample.long_hostname)
   /\ List.length
        (metrics (snd (post_ingest PyDatetime.fromisoformat AdapterClass
                         no_faults 1000 init_database
                         (Sample.body ts Sample.long_hostname))))
      = 1%nat)
  /\ (~ spec_hostname_bounds []
      /\ MetricsPayload.validate PyDatetime.fromisoformat
           (MetricsPayload.mkRaw (Some (lit "host-a"))
              (Some (Sample.snapshot ts [])))
         = Accepted (MetricsPayload.mk (lit "host-a")
                       (MetricsPayload.metrics (Sample.payload ts [])))).
Proof.
  cbv zeta; repeat split.
  - unfold spec_hostname_bounds; vm_compute; intros [_ H]; apply H; reflexivity.
  - unfold spec_hostname_bounds; vm_compute; intros [H _]; apply H; reflexivity.
Qed.

(** ** Timestamps *)

Lemma ap_accepted {A B} (f : Validated (A -> B)) (x : Validated A) b :
  ap f x = Accepted b ->
  exists g a, f = Accepted g /\ x = Accepted a /\ b = g a.
Proof.
  destruct f as [g|es], x as [a|es']; simpl; try discriminate.
  intros E; injection E as <-; exists g, a; repeat split.
Qed.

Lemma required_accepted {A B} name (v : option A) (check : A -> Validated B) b :
  required name v check = Accepted b ->
  exists a, v = Some a /\ check a = Accepted b.
Proof.
  unfold required; destruct v as [a|]; simpl; [|discriminate].
  destruct (check a) as [b'|es] eqn:E; simpl; [|discriminate].
  intros E'; injection E' as <-; exists a; split; [reflexivity | exact E].
Qed.

Lemma validate_timestamp_accepted fromisoformat v ts :
  SystemMetrics.validate_timestamp fromisoformat v = Accepted ts ->
  ts = v /\ exists d, fromisoformat (replace_Z v) = Some d.
Proof.
  unfold SystemMetrics.validate_timestamp.
  destruct (fromisoformat (replace_Z v)) as [d|]; [|discriminate].
  intros E; injection E as <-; split; [reflexivity | exists d; reflexivity].
Qed.






(** ** Scenarios *)

Example fromisoformat_zone :
  PyDatetime.parses (replace_Z (lit "2024-01-01T12:30:45.123Z")) = true.
Proof. reflexivity. Qed.

Example fromisoformat_garbage :
  PyDatetime.parses (lit "yesterday") = false.
Proof. reflexivity. Qed.

Example fromisoformat_bad_day :
  PyDatetime.parses (lit "2023-02-29T00:00:00+00:00") = false.
Proof. reflexivity. Qed.

(** An empty hostname filter is no filter: [if hostname:] is false. *)
Example empty_hostname_filter f now db hours :
  get_recent_metrics f now db (Some []) hours
  = get_recent_metrics f now db None hours.
Proof. reflexivity. Qed.

(** One snapshot of host-a, summarised over the last hour. *)
Example summary_of_one_snapshot :
  let db := snd (store_metrics no_faults 1000 init_database Sample.host_a) in
  fst (get_summary_stats no_faults 1000 db (Some (lit "host-a")) 1)
  = StatsRow (mkSummary 1
      (Some (552 # 10)) (Some (552 # 10))
      (Some (70 # 1)) (Some (70 # 1))
      (Some 0%Q) (Some 0%Q)).
Proof. vm_compute. reflexivity. Qed.

(** Records created 40 days and 1 day ago, swept with 30 days kept. *)
Example sweep_of_two_records :
  let t := 86400 * 100 in
  let db1 := snd (store_metrics no_faults (t - 86400 * 40) init_database
                    Sample.host_a) in
  let db2 := snd (store_metrics no_faults (t - 86400 * 1) db1 Sample.host_a) in
  fst (cleanup_old_data no_faults t db2 30) = 1
  /\ map id (metrics (snd (cleanup_old_data no_faults t db2 30))) = [2].
Proof. vm_compute. split; reflexivity. Qed.

(** The order of [created_at] rests on the clock: were a store made at
    an earlier clock reading than the one before it, the later id would
    carry the earlier [created_at]. *)
Remark created_at_order_needs_clock_order :
  let db1 := snd (store_metrics no_faults 1000 init_database Sample.host_a) in
  let db2 := snd (store_metrics no_faults 500 db1 Sample.host_a) in
  map (fun r => (id r, created_at r)) (metrics db2) = [(1, 1000); (2, 500)].
Proof. reflexivity. Qed.

(** * Further properties of the store *)

(** ** Ids are never used again *)

Lemma call_sequence_grows f now c db :
  sqlite_sequence db <= sqlite_sequence (call f now c db).
Proof.
  destruct c as [p|h hours|h hours|days]; simpl.
  - rewrite store_metrics_run;
      destruct (meets f _); [|destruct (bindable p)]; simpl; lia.
  - rewrite get_recent_metrics_run;
      destruct (meets f _); [|destruct (_ && _)%bool]; simpl; lia.
  - rewrite get_summary_stats_run;
      destruct (meets f _); [|destruct (_ && _)%bool]; simpl; lia.
  - rewrite cleanup_old_data_run;
      destruct (meets f _); [|destruct (representable _)]; simpl; lia.
Qed.

Lemma call_ids_bounded f now c db :
  ids_bounded db -> ids_bounded (call f now c db).
Proof.
  unfold ids_bounded; intros B; destruct c as [p|h hours|h hours|days]; simpl.
  - rewrite store_metrics_run;
      destruct (meets f _); [|destruct (bindable p)]; simpl; try exact B.
    apply Forall_app; split.
    + eapply Forall_impl; [|exact B]; simpl; intros; lia.
    + repeat constructor; simpl; lia.
  - rewrite get_recent_metrics_run;
      destruct (meets f _); [|destruct (_ && _)%bool]; exact B.
  - rewrite get_summary_stats_run;
      destruct (meets f _); [|destruct (_ && _)%bool]; exact B.
  - rewrite cleanup_old_data_run;
      destruct (meets f _); [|destruct (representable _)]; simpl; try exact B.
    apply Forall_filter, B.
Qed.

Lemma later_sequence_grows db db' :
  later db db' -> sqlite_sequence db <= sqlite_sequence db'.
Proof.
  induction 1 as [db|db db' f now c _ IH]; [lia|].
  pose proof (call_sequence_grows f now c db'); lia.
Qed.

Lemma later_ids_bounded db db' :
  ids_bounded db -> later db db' -> ids_bounded db'.
Proof.
  intros B; induction 1 as [db|db db' f now c _ IH]; [exact B|].
  apply call_ids_bounded, IH, B.
Qed.

(** X1. An id is never assigned twice, not even after the record that had
    it was swept: whatever calls follow a reachable state, a store that
    meets no fault, of a payload that can be bound, goes through and
    appends one record whose id is above the id of every record of
    that earlier state and of every record now in the table. *)
Theorem ids_never_reused :
  forall t db db' r f now p,
    reachable t db ->
    In r (metrics db) ->
    later db db' ->
    meets f [Connect; Execute; Commit] = false ->
    bindable p = true ->
    exists r',
      store_metrics f now db' p = (true, mkDatabase (metrics db' ++ [r']) (id r'))
      /\ id r < id r'
      /\ Forall (fun x => id x < id r') (metrics db').
Proof.
  intros t db db' r f now p R Hin L F P.
  assert (B : ids_bounded db)
    by (destruct (reachable_ids_ordered _ _ R) as [_ W];
        eapply Forall_impl; [|exact W]; simpl; intros ? [? _]; assumption).
  pose proof (later_sequence_grows _ _ L) as G.
  pose proof (later_ids_bounded _ _ B L) as B'.
  rewrite store_metrics_run, F, P.
  unfold insert_row.
  match goal with
  | |- context [mkDatabase (metrics db' ++ [?x]) (sqlite_sequence db' + 1)] =>
    exists x
  end.
  split; [reflexivity|]; simpl; split.
  - unfold ids_bounded in B; rewrite Forall_forall in B.
    specialize (B r Hin); lia.
  - eapply Forall_impl; [|exact B']; simpl; intros; lia.
Qed.

Lemma ids_never_reused_witness :
  let db := call no_faults 1000 (Store Sample.host_a) init_database in
  let db' := call no_faults 5000000 (Expire 30) db in
  metrics db' = []
  /\ bindable Sample.host_a = true
  /\ exists r',
      store_metrics no_faults 5000001 db' Sample.host_a
        = (true, mkDatabase (metrics db' ++ [r']) (id r'))
      /\ 1 < id r'.
Proof.
  cbv zeta; split; [reflexivity|].
  set (db := call no_faults 1000 (Store Sample.host_a) init_database).
  assert (R : reachable 1000 db)
    by (apply (reach_call 0 init_database no_faults 1000), reach_init).
  assert (T : bindable Sample.host_a = true) by reflexivity.
  refine (conj T _).
  destruct (ids_never_reused 1000 db (call no_faults 5000000 (Expire 30) db)
              (mkRow 1 (lit "2024-01-01T12:30:45+00:00") (lit "host-a")
                 (552 # 10) (70 # 1) 16000 11200 0%Q
                 (SystemMetrics.disk (MetricsPayload.metrics Sample.host_a))
                 None Sample.host_a 1000)
              no_faults 5000001 Sample.host_a R)
    as (r' & E & Hlt & _).
  - left; reflexivity.
  - apply later_call, later_now.
  - reflexivity.
  - exact T.
  - exists r'; split; [exact E | exact Hlt].
Defined.

(** ** What the cap of a read leaves out *)

Lemma sorted_app_inv {A} (R : A -> A -> Prop) l1 l2 :
  StronglySorted R (l1 ++ l2) ->
  forall a b, In a l1 -> In b l2 -> R a b.
Proof.
  induction l1 as [|x l1 IH]; simpl; intros S a b Ha Hb; [contradiction|].
  inversion S as [|? ? S' F]; subst.
  destruct Ha as [<-|Ha].
  - rewrite Forall_forall in F; apply F, in_or_app; right; exact Hb.
  - eapply IH; eassumption.
Qed.

Lemma firstn_or_no_newer n (l : list MetricsRow) r' :
  StronglySorted newest_first l ->
  In r' l ->
  In r' (firstn n l) \/ Forall (fun r => created_at r' <= created_at r) (firstn n l).
Proof.
  intros S Hin.
  rewrite <- (firstn_skipn n l) in S, Hin.
  apply in_app_or in Hin as [Hin|Hin]; [left; exact Hin|].
  right; apply Forall_forall; intros r Hr.
  exact (sorted_app_inv _ _ _ S r r' Hr Hin).
Qed.

(** X2. When more than 1000 records match, the ones a read leaves out are
    the oldest: every matching record is in the result or is no newer
    than each record of the result. *)
Theorem cap_drops_the_oldest :
  forall now db h hours,
    Forall (fun r' =>
              In r' (recent now db h hours)
              \/ Forall (fun r => created_at r' <= created_at r)
                        (recent now db h hours))
           (matching h (since now hours) db).
Proof.
  intros now db h hours; unfold recent.
  rewrite get_recent_metrics_run; simpl.
  apply Forall_forall; intros r' Hin.
  destruct (representable (since now hours) && filter_binds _)%bool; simpl; [|right; constructor].
  apply firstn_or_no_newer; [apply order_by_sorted|].
  eapply Permutation_in; [apply order_by_perm | exact Hin].
Qed.

(** X3. When at most 1000 records match, the window's cutoff is a
    datetime and the hostname filter can be bound, a read that meets no
    fault returns each of them once: its result is a rearrangement of
    the matching records. *)
Theorem read_under_cap_is_complete :
  forall now db h hours,
    representable (since now hours) = true ->
    filter_binds h = true ->
    (List.length (matching h (since now hours) db) <= 1000)%nat ->
    Permutation (matching h (since now hours) db) (recent now db h hours).
Proof.
  intros now db h hours R B L; unfold recent.
  rewrite get_recent_metrics_run, R, B; simpl.
  apply select_order_limit_all, L.
Qed.

Lemma read_under_cap_is_complete_witness :
  let db := snd (store_metrics no_faults 1000 init_database Sample.host_a) in
  representable (since 1000 1) = true
  /\ filter_binds None = true
  /\ (List.length (matching None (since 1000 1) db) <= 1000)%nat
  /\ Permutation (matching None (since 1000 1) db) (recent 1000 db None 1).
Proof.
  cbv zeta.
  assert (R : representable (since 1000 1) = true) by reflexivity.
  assert (L : (List.length
                 (matching None (since 1000 1)
                    (snd (store_metrics no_faults 1000 init_database
                            Sample.host_a))) <= 1000)%nat)
    by (vm_compute; lia).
  exact (conj R (conj eq_refl (conj L
           (read_under_cap_is_complete 1000 _ None 1 R eq_refl L)))).
Defined.

(** X4. In a reachable state no record comes twice in a read's result. *)
Theorem read_has_no_duplicates :
  forall t db f now h hours,
    reachable t db ->
    NoDup (map id (fst (get_recent_metrics f now db h hours))).
Proof.
  intros t db f now h hours R.
  rewrite get_recent_metrics_run; destruct (meets f _); simpl; [constructor|].
  destruct (representable (since now hours) && filter_binds _)%bool; simpl; [|constructor].
  destruct (reachable_ids_ordered _ _ R) as [S _].
  pose proof (sorted_lt_NoDup _ (id_before_sorted _ (StronglySorted_filter _
                (matches h (since now hours)) _ S))) as N.
  unfold select_order_limit.
  set (l := filter (matches h (since now hours)) (metrics db)) in *.
  assert (N' : NoDup (map id (order_by_created_at_desc l)))
    by (eapply Permutation_NoDup; [apply Permutation_map, order_by_perm | exact N]).
  rewrite <- (firstn_skipn LIMIT (order_by_created_at_desc l)), map_app in N'.
  apply NoDup_app_remove_r in N'; exact N'.
Qed.

Lemma read_has_no_duplicates_witness :
  let db := call no_faults 2000 (Store Sample.host_a)
              (call no_faults 1000 (Store Sample.host_a) init_database) in
  reachable 2000 db
  /\ NoDup (map id (fst (get_recent_metrics no_faults 2000 db None 1))).
Proof.
  cbv zeta.
  assert (R : reachable 2000
                (call no_faults 2000 (Store Sample.host_a)
                   (call no_faults 1000 (Store Sample.host_a) init_database))).
  { apply (reach_call 1000 _ no_faults 2000).
    apply (reach_call 0 init_database no_faults 1000), reach_init. }
  exact (conj R (read_has_no_duplicates 2000 _ no_faults 2000 None 1 R)).
Defined.

(** ** Sweeps in a row, and sweeps against reads *)

Lemma kept_twice c1 c2 l :
  c1 <= c2 -> filter (kept c2) (filter (kept c1) l) = filter (kept c2) l.
Proof.
  intros L; rewrite filter_filter; apply filter_ext_bool; intros r.
  unfold kept.
  destruct (Z.leb_spec c1 (created_at r)), (Z.leb_spec c2 (created_at r));
    simpl; try reflexivity; lia.
Qed.

Lemma older_split c1 c2 (l : list MetricsRow) :
  c1 <= c2 ->
  List.length (filter (older_than c2) l)
  = (List.length (filter (older_than c1) l)
     + List.length (filter (older_than c2) (filter (kept c1) l)))%nat.
Proof.
  intros L; induction l as [|r l IH]; simpl; [reflexivity|].
  unfold older_than, kept in *.
  destruct (Z.ltb_spec (created_at r) c2), (Z.ltb_spec (created_at r) c1),
           (Z.leb_spec c1 (created_at r)); simpl; try lia;
    rewrite ?Z.ltb_lt, ?Z.ltb_ge; unfold older_than;
    try (destruct (Z.ltb_spec (created_at r) c2); simpl; lia).
Qed.

(** X5. Two sweeps of the same retention, the second at a clock reading not
    before the first, with a cutoff that is a datetime, and with nothing
    written in between, leave the table one sweep at the second reading
    leaves, and between them delete as many records as that one sweep.
    (The first sweep may have failed on its own cutoff: it then deleted
    nothing.) *)
Theorem sweeps_compose :
  forall now1 now2 db days,
    now1 <= now2 ->
    representable (cutoff now2 days) = true ->
    let first := cleanup_old_data no_faults now1 db days in
    let second := cleanup_old_data no_faults now2 (snd first) days in
    snd second = snd (cleanup_old_data no_faults now2 db days)
    /\ fst first + fst second = fst (cleanup_old_data no_faults now2 db days).
Proof.
  intros now1 now2 db days L R2; cbv zeta.
  assert (C : cutoff now1 days <= cutoff now2 days) by (unfold cutoff; lia).
  destruct (representable (cutoff now1 days)) eqn:R1.
  - rewrite (sweep_run now1 db days R1); cbn [fst snd].
    rewrite !(sweep_run now2 _ days R2); cbn [fst snd metrics sqlite_sequence].
    split.
    + rewrite kept_twice by exact C; reflexivity.
    + rewrite (older_split _ _ (metrics db) C); lia.
  - assert (E : cleanup_old_data no_faults now1 db days = (0, db)).
    { rewrite cleanup_old_data_run, R1; reflexivity. }
    rewrite E; cbn [fst snd]; split; [reflexivity | lia].
Qed.

Lemma sweeps_compose_witness :
  let t := 86400 * 100 in
  let db1 := snd (store_metrics no_faults (t - 86400 * 40) init_database
                    Sample.host_a) in
  let db := snd (store_metrics no_faults (t - 86400 * 35) db1 Sample.host_a) in
  t - 86400 * 8 <= t
  /\ representable (cutoff t 30) = true
  /\ fst (cleanup_old_data no_faults (t - 86400 * 8) db 30)
     + fst (cleanup_old_data no_faults t
              (snd (cleanup_old_data no_faults (t - 86400 * 8) db 30)) 30)
     = fst (cleanup_old_data no_faults t db 30).
Proof.
  cbv zeta.
  assert (L : 86400 * 100 - 86400 * 8 <= 86400 * 100) by lia.
  assert (R : representable (cutoff (86400 * 100) 30) = true) by reflexivity.
  refine (conj L (conj R _)).
  exact (proj2 (sweeps_compose _ _ _ 30 L R)).
Defined.

Lemma matches_newer h s r : matches h s r = true -> s < created_at r.
Proof.
  unfold matches; destruct (truthy h); intros M.
  - apply andb_true_iff in M as [_ M]; apply Z.ltb_lt, M.
  - apply Z.ltb_lt, M.
Qed.

Lemma matches_after_sweep h s c l :
  c <= s -> filter (matches h s) (filter (kept c) l) = filter (matches h s) l.
Proof.
  intros L; rewrite filter_filter; apply filter_ext_bool; intros r.
  destruct (matches h s r) eqn:M; [|apply andb_false_r].
  apply matches_newer in M; rewrite andb_true_r.
  apply Z.leb_le; lia.
Qed.

Lemma swept_table f now db days :
  metrics (snd (cleanup_old_data f now db days)) = metrics db
  \/ metrics (snd (cleanup_old_data f now db days))
     = filter (kept (cutoff now days)) (metrics db).
Proof.
  rewrite cleanup_old_data_run; destruct (meets f _); simpl; [left; reflexivity|].
  destruct (representable (cutoff now days)); simpl; [|left; reflexivity].
  right; apply filter_ext_bool; intros; apply kept_not_older.
Qed.

(** X6. A sweep takes nothing from a read whose window reaches no further
    back than the sweep's cutoff (at one clock reading: a window no
    longer than the retention).  The records read and the summary are
    the same after the sweep as before it, whether the sweep went
    through or failed. *)
Theorem sweep_keeps_what_reads_see :
  forall f g now1 now2 db days h hours,
    cutoff now1 days <= since now2 hours ->
    let db' := snd (cleanup_old_data f now1 db days) in
    fst (get_recent_metrics g now2 db' h hours)
      = fst (get_recent_metrics g now2 db h hours)
    /\ fst (get_summary_stats g now2 db' h hours)
      = fst (get_summary_stats g now2 db h hours).
Proof.
  intros f g now1 now2 db days h hours L db'.
  assert (E : filter (matches h (since now2 hours)) (metrics db')
              = filter (matches h (since now2 hours)) (metrics db)).
  { unfold db'; destruct (swept_table f now1 db days) as [-> | ->];
      [reflexivity | apply matches_after_sweep, L]. }
  clearbody db'.
  rewrite !get_recent_metrics_run, !get_summary_stats_run.
  destruct (meets g _); simpl; [split; reflexivity|].
  destruct (representable (since now2 hours) && filter_binds _)%bool; simpl; [|split; reflexivity].
  unfold select_order_limit, select_aggregates; rewrite E; split; reflexivity.
Qed.

Lemma sweep_keeps_what_reads_see_witness :
  let db := snd (store_metrics no_faults 1000 init_database Sample.host_a) in
  cutoff 2000 30 <= since 2000 24
  /\ fst (get_recent_metrics no_faults 2000
            (snd (cleanup_old_data no_faults 2000 db 30)) None 24)
     = fst (get_recent_metrics no_faults 2000 db None 24).
Proof.
  cbv zeta.
  assert (L : cutoff 2000 30 <= since 2000 24) by (vm_compute; discriminate).
  refine (conj L _).
  exact (proj1 (sweep_keeps_what_reads_see no_faults no_faults 2000 2000 _ 30
                  None 24 L)).
Defined.

(** X7. [days_to_keep] is not checked: with a negative value the cutoff
    lies after the clock reading, and, when that cutoff is still a
    datetime (the subtraction raises otherwise, and nothing is deleted),
    a sweep that meets no fault deletes every record of a table no
    clock reading of whose history was after the sweep's, and reports
    their number. *)
Theorem negative_retention_deletes_everything :
  forall t db now days,
    reachable t db ->
    t <= now ->
    days < 0 ->
    representable (cutoff now days) = true ->
    cleanup_old_data no_faults now db days
    = (Z.of_nat (List.length (metrics db)), mkDatabase [] (sqlite_sequence db)).
Proof.
  intros t db now days R L D P.
  destruct (reachable_ids_ordered _ _ R) as [_ W]; rewrite Forall_forall in W.
  assert (O : forall r, In r (metrics db) -> older_than (cutoff now days) r = true).
  { intros r Hr; destruct (W r Hr) as [_ C].
    apply Z.ltb_lt; unfold cutoff; lia. }
  rewrite (sweep_run now db days P); f_equal; [f_equal; f_equal|f_equal].
  - clear W; induction (metrics db) as [|r l IH]; simpl; [reflexivity|].
    rewrite (O r (or_introl eq_refl)); simpl; f_equal.
    apply IH; intros; apply O; right; assumption.
  - apply filter_none; intros r Hr.
    rewrite <- kept_not_older, (O r Hr); reflexivity.
Qed.

Lemma negative_retention_deletes_everything_witness :
  let db := call no_faults 1000 (Store Sample.host_a) init_database in
  reachable 1000 db /\ 1000 <= 1000 /\ -1 < 0
  /\ representable (cutoff 1000 (-1)) = true
  /\ cleanup_old_data no_faults 1000 db (-1)
     = (1, mkDatabase [] 1).
Proof.
  cbv zeta.
  assert (R : reachable 1000
                (call no_faults 1000 (Store Sample.host_a) init_database))
    by (apply (reach_call 0 init_database no_faults 1000), reach_init).
  assert (L : 1000 <= 1000) by lia.
  assert (D : -1 < 0) by lia.
  assert (P : representable (cutoff 1000 (-1)) = true) by reflexivity.
  refine (conj R (conj L (conj D (conj P _)))).
  exact (negative_retention_deletes_everything 1000 _ 1000 (-1) R L D P).
Defined.

(** ** The periodic task *)

Lemma kept_max a b l :
  filter (kept b) (filter (kept a) l) = filter (kept (Z.max a b)) l.
Proof.
  rewrite filter_filter; apply filter_ext_bool; intros r; unfold kept.
  destruct (Z.leb_spec a (created_at r)), (Z.leb_spec b (created_at r)),
           (Z.leb_spec (Z.max a b) (created_at r)); simpl; try reflexivity; lia.
Qed.

Lemma periodic_cleanup_table cycles :
  forall db,
    metrics (periodic_cleanup cycles db)
    = match swept_cutoff cycles with
      | Some c => filter (kept c) (metrics db)
      | None => metrics db
      end.
Proof.
  induction cycles as [|[f now] rest IH]; intros db;
    cbn [periodic_cleanup swept_cutoff]; [reflexivity|].
  rewrite IH, cleanup_old_data_run.
  destruct (meets f [Connect; Cutoff; Execute; Commit]); simpl; [reflexivity|].
  destruct (representable (cutoff now 30)); simpl; [|reflexivity].
  rewrite (filter_ext_bool (fun r => negb (older_than (cutoff now 30) r))
             (kept (cutoff now 30))) by (intros; apply kept_not_older).
  destruct (swept_cutoff rest) as [b|]; [apply kept_max | reflexivity].
Qed.

Lemma swept_cutoff_is_of_a_cycle cycles c :
  swept_cutoff cycles = Some c ->
  exists f now, In (f, now) cycles /\ c = cutoff now 30.
Proof.
  revert c; induction cycles as [|[f now] rest IH];
    cbn [swept_cutoff]; intros c E; [discriminate|].
  destruct (meets f [Connect; Cutoff; Execute; Commit]
            || negb (representable (cutoff now 30)))%bool.
  - destruct (IH c E) as (f' & now' & Hin & Hc).
    exists f', now'; split; [right; exact Hin | exact Hc].
  - destruct (swept_cutoff rest) as [b|].
    + injection E as <-.
      destruct (Z.max_spec (cutoff now 30) b) as [[_ ->]|[_ ->]].
      * destruct (IH b eq_refl) as (f' & now' & Hin & Hc).
        exists f', now'; split; [right; exact Hin | exact Hc].
      * exists f, now; split; [left; reflexivity | reflexivity].
    + injection E as <-; exists f, now; split; [left; reflexivity | reflexivity].
Qed.

(** X8. After any number of cycles of the periodic task, failed cycles
    among them, the table holds exactly the records created at or after
    the latest cutoff of a cycle that went through (all of them when
    none did); so a record is gone only if it was older than 30 days at
    the clock reading of some cycle. *)
Theorem periodic_cleanup_removes_only_the_expired :
  forall cycles db,
    metrics (periodic_cleanup cycles db)
    = match swept_cutoff cycles with
      | Some c => filter (kept c) (metrics db)
      | None => metrics db
      end
    /\ Forall (fun r =>
                 In r (metrics (periodic_cleanup cycles db))
                 \/ exists f now, In (f, now) cycles
                                  /\ created_at r < now - 86400 * 30)
              (metrics db).
Proof.
  intros cycles db; split; [apply periodic_cleanup_table|].
  rewrite periodic_cleanup_table.
  apply Forall_forall; intros r Hr.
  destruct (swept_cutoff cycles) as [c|] eqn:E; [|left; exact Hr].
  destruct (Z.leb_spec c (created_at r)) as [K|K].
  - left; apply filter_In; split; [exact Hr | apply Z.leb_le, K].
  - right; destruct (swept_cutoff_is_of_a_cycle _ _ E) as (f & now & Hin & ->).
    exists f, now; split; [exact Hin | exact K].
Qed.

(** ** Aggregates of a summary *)

Lemma Qmax_case a b : Qmax a b = a \/ Qmax a b = b.
Proof. unfold Qmax; destruct (Qle_bool a b); auto. Qed.

Lemma Qmax_ge_l a b : (a <= Qmax a b)%Q.
Proof.
  unfold Qmax; destruct (Qle_bool a b) eqn:E;
    [apply Qle_bool_iff, E | apply Qle_refl].
Qed.

Lemma Qmax_ge_r a b : (b <= Qmax a b)%Q.
Proof.
  unfold Qmax; destruct (Qle_bool a b) eqn:E; [apply Qle_refl|].
  apply Qlt_le_weak, Qnot_le_lt; intros H.
  apply Qle_bool_iff in H; congruence.
Qed.

Lemma fold_Qmax l : forall x,
  (x <= fold_left Qmax l x)%Q
  /\ Forall (fun y => (y <= fold_left Qmax l x)%Q) l
  /\ In (fold_left Qmax l x) (x :: l).
Proof.
  induction l as [|y l IH]; intros x; simpl.
  - repeat split; [apply Qle_refl | constructor | left; reflexivity].
  - destruct (IH (Qmax x y)) as (A & B & C); repeat split.
    + eapply Qle_trans; [apply Qmax_ge_l | exact A].
    + constructor; [|exact B].
      eapply Qle_trans; [apply Qmax_ge_r | exact A].
    + destruct C as [C|C]; [|right; right; exact C].
      rewrite <- C.
      destruct (Qmax_case x y) as [E|E]; rewrite E;
        [left | right; left]; reflexivity.
Qed.

Lemma MAX_is_maximum (col : MetricsRow -> Q) rows :
  is_maximum col rows (MAX (map col rows)).
Proof.
  destruct rows as [|r rows]; simpl; [reflexivity|].
  destruct (fold_Qmax (map col rows) (col r)) as (A & B & C); split.
  - change (col r :: map col rows) with (map col (r :: rows)) in C.
    apply in_map_iff in C as (r' & E & Hin); exists r'; split; assumption.
  - constructor; [exact A|].
    rewrite Forall_map in B; exact B.
Qed.

(** X9. When the window's cutoff is a datetime and the hostname filter
    can be bound, a summary that meets no fault is a row whose maxima are values of matching records: each is
    the value of its column in some matching record and no matching
    record has a larger one; it is NULL only when no record matches. *)
Theorem summary_maxima_are_attained :
  forall now db h hours,
    representable (since now hours) = true ->
    filter_binds h = true ->
    exists s,
      fst (get_summary_stats no_faults now db h hours) = StatsRow s
      /\ is_maximum cpu_percent (matching h (since now hours) db) (max_cpu s)
      /\ is_maximum memory_percent (matching h (since now hours) db)
                    (max_memory s)
      /\ is_maximum swap_percent (matching h (since now hours) db) (max_swap s).
Proof.
  intros now db h hours R B; rewrite get_summary_stats_run, R, B; simpl.
  eexists; split; [reflexivity|]; simpl.
  repeat split; apply MAX_is_maximum.
Qed.

Lemma summary_maxima_are_attained_witness :
  let db := snd (store_metrics no_faults 1000 init_database Sample.host_a) in
  representable (since 2000 24) = true
  /\ filter_binds None = true
  /\ exists s,
      fst (get_summary_stats no_faults 2000 db None 24) = StatsRow s
      /\ is_maximum cpu_percent (matching None (since 2000 24) db) (max_cpu s)
      /\ is_maximum memory_percent (matching None (since 2000 24) db)
                    (max_memory s)
      /\ is_maximum swap_percent (matching None (since 2000 24) db)
                    (max_swap s).
Proof.
  cbv zeta.
  assert (R : representable (since 2000 24) = true) by reflexivity.
  exact (conj R (conj eq_refl
           (summary_maxima_are_attained 2000 _ None 24 R eq_refl))).
Defined.

Lemma AVG_is_some l : is_some (AVG l) = negb (Nat.eqb (List.length l) 0).
Proof. destruct l; reflexivity. Qed.

Lemma MAX_is_some l : is_some (MAX l) = negb (Nat.eqb (List.length l) 0).
Proof. destruct l; reflexivity. Qed.

(** X10. When the window's cutoff is a datetime and the hostname filter
    can be bound, a summary that meets no fault is a row whose averages and maxima are NULL together, and
    exactly when the count is 0. *)
Theorem summary_aggregates_null_iff_no_records :
  forall now db h hours,
    representable (since now hours) = true ->
    filter_binds h = true ->
    exists s,
      fst (get_summary_stats no_faults now db h hours) = StatsRow s
      /\ 0 <= total_records s
      /\ map is_some [avg_cpu s; max_cpu s; avg_memory s; max_memory s;
                      avg_swap s; max_swap s]
         = repeat (Z.ltb 0 (total_records s)) 6.
Proof.
  intros now db h hours R B; rewrite get_summary_stats_run, R, B; simpl.
  eexists; split; [reflexivity|]; simpl; split; [lia|].
  rewrite !AVG_is_some, !MAX_is_some, !length_map.
  destruct (filter _ _); reflexivity.
Qed.

Lemma summary_aggregates_null_iff_no_records_witness :
  representable (since 2000 24) = true
  /\ filter_binds None = true
  /\ exists s,
      fst (get_summary_stats no_faults 2000 init_database None 24) = StatsRow s
      /\ 0 <= total_records s
      /\ map is_some [avg_cpu s; max_cpu s; avg_memory s; max_memory s;
                      avg_swap s; max_swap s]
         = repeat (Z.ltb 0 (total_records s)) 6.
Proof.
  assert (R : representable (since 2000 24) = true) by reflexivity.
  exact (conj R (conj eq_refl
           (summary_aggregates_null_iff_no_records 2000 init_database
              None 24 R eq_refl))).
Defined.

(** ** Counts grow with the window and shrink with a host filter *)

Lemma filter_length_le {A} (p q : A -> bool) l :
  (forall a, p a = true -> q a = true) ->
  (List.length (filter p l) <= List.length (filter q l))%nat.
Proof.
  intros I; induction l as [|a l IH]; simpl; [lia|].
  destruct (p a) eqn:P; [rewrite (I a P); simpl; lia|].
  destruct (q a); simpl; lia.
Qed.

Lemma matches_wider h s s' r :
  s' <= s -> matches h s r = true -> matches h s' r = true.
Proof.
  unfold matches, newer_than; intros L; destruct (truthy h).
  - rewrite !andb_true_iff, !Z.ltb_lt; intros [? ?]; split; [assumption | lia].
  - rewrite !Z.ltb_lt; lia.
Qed.

Lemma matches_any_host h s r :
  matches h s r = true -> matches None s r = true.
Proof.
  unfold matches; simpl; destruct (truthy h); [|auto].
  rewrite andb_true_iff; tauto.
Qed.

(** X11. At one clock reading, for two windows whose cutoffs are
    datetimes and a hostname filter that can be bound, summaries that
    meet no fault have counts, the count does not shrink when the
    window grows, and the count for one host is at most the count for
    all hosts.  (A window whose cutoff is not a datetime, and a
    hostname that cannot be bound, give the empty dict, which has no
    count.) *)
Theorem summary_count_monotone :
  forall now db h hours hours',
    hours <= hours' ->
    representable (since now hours) = true ->
    representable (since now hours') = true ->
    filter_binds h = true ->
    exists n n' all,
      count_of (fst (get_summary_stats no_faults now db h hours)) = Some n
      /\ count_of (fst (get_summary_stats no_faults now db h hours')) = Some n'
      /\ count_of (fst (get_summary_stats no_faults now db None hours)) = Some all
      /\ n <= n' /\ n <= all.
Proof.
  intros now db h hours hours' L R R' B.
  rewrite !get_summary_stats_run, R, R', B; simpl.
  do 3 eexists; repeat (split; [reflexivity|]); split; apply inj_le.
  - apply filter_length_le; intros r; apply matches_wider; unfold since; lia.
  - apply filter_length_le; intros r; apply matches_any_host.
Qed.

Lemma summary_count_monotone_witness :
  let db := snd (store_metrics no_faults 1000 init_database Sample.host_a) in
  1 <= 24
  /\ representable (since 5000 1) = true
  /\ representable (since 5000 24) = true
  /\ filter_binds (Some (lit "host-a")) = true
  /\ exists n n' all,
      count_of (fst (get_summary_stats no_faults 5000 db
                       (Some (lit "host-a")) 1)) = Some n
      /\ count_of (fst (get_summary_stats no_faults 5000 db
                          (Some (lit "host-a")) 24)) = Some n'
      /\ count_of (fst (get_summary_stats no_faults 5000 db None 1)) = Some all
      /\ n <= n' /\ n <= all.
Proof.
  cbv zeta.
  assert (L : 1 <= 24) by lia.
  assert (R : representable (since 5000 1) = true) by reflexivity.
  assert (R' : representable (since 5000 24) = true) by reflexivity.
  exact (conj L (conj R (conj R' (conj eq_refl
           (summary_count_monotone 5000 _ (Some (lit "host-a")) 1 24 L R R'
              eq_refl))))).
Defined.

(** ** The ingestion endpoint, end to end *)

(** X12. For every request the endpoint gives one of four answers, and the
    database changes in one of them only.  A body that fails validation
    gets the validation errors, each located under "body", and nothing
    is written.  An accepted body, when the InfluxDB adapter could not
    be imported, gets status 400 with the TypeError's message and
    nothing is written.  Otherwise an accepted body whose store fails,
    by a fault of the database or because a value cannot be bound to
    its column (a memory total or used outside the 64-bit integers, a
    timestamp or hostname that cannot be encoded), gets status 500 and
    nothing is written; and an accepted body whose store goes through
    gets success, echoing the payload's hostname and timestamp, and
    exactly one record is appended. *)
Theorem ingest_answers :
  forall fromisoformat adapter f now db body,
    match MetricsPayload.validate fromisoformat body, adapter with
    | Rejected errors, _ =>
      post_ingest fromisoformat adapter f now db body
      = (RequestValidationError (under (Key "body") errors), db)
    | Accepted p, AdapterNone type_error =>
      post_ingest fromisoformat adapter f now db body
      = (HTTPException 400 type_error, db)
    | Accepted p, AdapterClass =>
      post_ingest fromisoformat adapter f now db body
      = if (meets f [Connect; Execute; Commit] || negb (bindable p))%bool
        then (HTTPException 500 "Failed to store metrics", db)
        else (Success (MetricsPayload.hostname p)
                      (SystemMetrics.timestamp (MetricsPayload.metrics p)),
              insert_row now p db)
    end.
Proof.
  intros fromisoformat adapter f now db body; unfold post_ingest, ingest_metrics.
  destruct (MetricsPayload.validate fromisoformat body) as [p|errors];
    [|reflexivity].
  destruct adapter as [|type_error]; [|reflexivity].
  rewrite store_metrics_run.
  destruct (meets f _); [reflexivity|].
  destruct (bindable p); reflexivity.
Qed.

(** * Further properties of validation *)

(** ** A named field is a violated one *)

Lemma names_accepted {A} (a : A) l : ~ names (Accepted a) l.
Proof. intros []. Qed.

Lemma names_ap_inv {A B} (f : Validated (A -> B)) (x : Validated A) l :
  names (ap f x) l -> names f l \/ names x l.
Proof.
  unfold names; destruct f as [g|es], x as [a|es']; simpl; try tauto.
  rewrite map_app, in_app_iff; tauto.
Qed.

Lemma names_at_loc_inv {A} k (v : Validated A) l :
  names (at_loc k v) l -> exists l', l = k :: l' /\ names v l'.
Proof.
  unfold names; destruct v as [a|es]; simpl; [tauto|].
  unfold under; rewrite map_map; simpl.
  intros H; apply in_map_iff in H as (e & <- & He).
  exists (loc e); split; [reflexivity | apply in_map, He].
Qed.

Lemma names_fail_inv {A} k l : names (@fail A k) l -> l = [].
Proof. intros [<-|[]]; reflexivity. Qed.

Lemma names_required_inv {A B} name (v : option A) (check : A -> Validated B) l :
  names (required name v check) l ->
  (v = None /\ l = [Key name])
  \/ exists a l', v = Some a /\ l = Key name :: l' /\ names (check a) l'.
Proof.
  unfold required; intros H; destruct v as [a|];
    apply names_at_loc_inv in H as (l' & -> & H).
  - right; exists a, l'; repeat split; exact H.
  - left; apply names_fail_inv in H; subst; split; reflexivity.
Qed.

Lemma names_with_default_inv {A} name d (v : option A) (check : A -> Validated A) l :
  names (with_default name d v check) l ->
  exists a l', v = Some a /\ l = Key name :: l' /\ names (check a) l'.
Proof.
  unfold with_default; destruct v as [a|]; intros H.
  - apply names_at_loc_inv in H as (l' & -> & H); exists a, l'; repeat split; exact H.
  - destruct (names_accepted _ _ H).
Qed.

Lemma names_optional_inv {A B} name (v : option A) (check : A -> Validated B) l :
  names (optional name v check) l ->
  exists a l', v = Some a /\ l = Key name :: l' /\ names (check a) l'.
Proof.
  unfold optional; destruct v as [a|]; intros H.
  - apply names_at_loc_inv in H as (l' & -> & H).
    apply names_ap_inv in H as [H|H]; [destruct (names_accepted _ _ H)|].
    exists a, l'; repeat split; exact H.
  - destruct (names_accepted _ _ H).
Qed.

Lemma names_percent_range_inv x l :
  names (percent_range x) l -> l = [] /\ outside_percent x.
Proof.
  unfold percent_range, float_ge_le, outside_percent.
  destruct (Qle_bool 0 x) eqn:E1; simpl.
  - destruct (Qle_bool x 100) eqn:E2; simpl; intros H.
    + destruct (names_accepted _ _ H).
    + split; [apply (names_fail_inv _ _ H)|].
      intros [_ C]; apply Qle_bool_iff in C; congruence.
  - intros H; split; [apply (names_fail_inv _ _ H)|].
    intros [C _]; apply Qle_bool_iff in C; congruence.
Qed.

Lemma names_float_ge_inv x l :
  names (float_ge 0 x) l -> l = [] /\ ~ (0 <= x)%Q.
Proof.
  unfold float_ge; destruct (Qle_bool 0 x) eqn:E; intros H.
  - destruct (names_accepted _ _ H).
  - split; [apply (names_fail_inv _ _ H)|].
    intros C; apply Qle_bool_iff in C; congruence.
Qed.

Lemma names_int_gt_inv x l : names (int_gt 0 x) l -> l = [] /\ ~ 0 < x.
Proof.
  unfold int_gt; destruct (Z.ltb_spec 0 x) as [L|L]; intros H.
  - destruct (names_accepted _ _ H).
  - split; [apply (names_fail_inv _ _ H) | lia].
Qed.

Lemma names_int_ge_inv x l : names (int_ge 0 x) l -> l = [] /\ x < 0.
Proof.
  unfold int_ge; destruct (Z.leb_spec 0 x) as [L|L]; intros H.
  - destruct (names_accepted _ _ H).
  - split; [apply (names_fail_inv _ _ H) | lia].
Qed.

Lemma names_str_length_inv lo hi v l :
  names (str_length lo hi v) l -> l = [] /\ ~ (lo <= len v <= hi).
Proof.
  unfold str_length.
  destruct (Z.ltb_spec (len v) lo) as [L1|L1];
    [intros H; split; [apply (names_fail_inv _ _ H) | lia]|].
  destruct (Z.ltb_spec hi (len v)) as [L2|L2]; intros H.
  - split; [apply (names_fail_inv _ _ H) | lia].
  - destruct (names_accepted _ _ H).
Qed.

Lemma names_validate_timestamp_inv fromisoformat v l :
  names (SystemMetrics.validate_timestamp fromisoformat v) l ->
  l = [] /\ unparseable fromisoformat v.
Proof.
  unfold SystemMetrics.validate_timestamp, unparseable.
  destruct (fromisoformat (replace_Z v)); intros H.
  - destruct (names_accepted _ _ H).
  - split; [apply (names_fail_inv _ _ H) | reflexivity].
Qed.

(** What a field's check names is the field, with its constraint violated. *)
Lemma field_percent_inv name v l :
  names (required name v percent_range) l ->
  l = fst (req_percent name v) /\ snd (req_percent name v).
Proof.
  intros H; apply names_required_inv in H as [[-> ->]|(a & l' & -> & -> & H)].
  - split; [reflexivity | left; reflexivity].
  - apply names_percent_range_inv in H as [-> H].
    split; [reflexivity | right; exists a; split; [reflexivity | exact H]].
Qed.

Lemma field_positive_inv name v l :
  names (required name v (int_gt 0)) l ->
  l = fst (req_positive name v) /\ snd (req_positive name v).
Proof.
  intros H; apply names_required_inv in H as [[-> ->]|(a & l' & -> & -> & H)].
  - split; [reflexivity | left; reflexivity].
  - apply names_int_gt_inv in H as [-> H].
    split; [reflexivity | right; exists a; split; [reflexivity | exact H]].
Qed.

Lemma field_nonneg_inv name v l :
  names (required name v (int_ge 0)) l ->
  l = fst (req_nonneg name v) /\ snd (req_nonneg name v).
Proof.
  intros H; apply names_required_inv in H as [[-> ->]|(a & l' & -> & -> & H)].
  - split; [reflexivity | left; reflexivity].
  - apply names_int_ge_inv in H as [-> H].
    split; [reflexivity | right; exists a; split; [reflexivity | exact H]].
Qed.

Lemma field_opt_nonneg_inv name v l :
  names (with_default name 0 v (int_ge 0)) l ->
  l = fst (opt_nonneg name v) /\ snd (opt_nonneg name v).
Proof.
  intros H; apply names_with_default_inv in H as (a & l' & -> & -> & H).
  apply names_int_ge_inv in H as [-> H].
  split; [reflexivity | exists a; split; [reflexivity | exact H]].
Qed.

Lemma field_any_inv {A} name (v : option A) l :
  names (required name v any) l ->
  l = fst (req_any name v) /\ snd (req_any name v).
Proof.
  intros H; apply names_required_inv in H as [[-> ->]|(a & l' & -> & -> & H)].
  - split; reflexivity.
  - destruct (names_accepted _ _ H).
Qed.

Lemma field_optional_any_inv {A} name (v : option A) l :
  ~ names (optional name v any) l.
Proof.
  intros H; apply names_optional_inv in H as (a & l' & _ & _ & H).
  destruct (names_accepted _ _ H).
Qed.

Lemma violated_intro (cs : Constraints) c :
  In c cs -> snd c -> violated cs (fst c).
Proof. destruct c as [l P]; intros Hin HP; exists P; split; assumption. Qed.

(** Settles one field of a model: the field's check named the path. *)
Ltac settle_field H :=
  first
    [ destruct (names_accepted _ _ H)
    | destruct (field_optional_any_inv _ _ _ H)
    | first [ apply field_percent_inv in H
            | apply field_positive_inv in H
            | apply field_nonneg_inv in H
            | apply field_opt_nonneg_inv in H
            | apply field_any_inv in H ];
      destruct H as [-> H];
      apply violated_intro; [simpl; tauto | exact H] ].

Ltac settle_fields H :=
  repeat (apply names_ap_inv in H as [H|H]); settle_field H.

Lemma cpu_sound r l :
  names (CPUMetrics.validate r) l -> violated (cpu_constraints r) l.
Proof. unfold CPUMetrics.validate; intros H; settle_fields H. Qed.

Lemma memory_sound r l :
  names (MemoryMetrics.validate r) l -> violated (memory_constraints r) l.
Proof. unfold MemoryMetrics.validate; intros H; settle_fields H. Qed.

Lemma swap_sound r l :
  names (SwapMetrics.validate r) l -> violated (swap_constraints r) l.
Proof. unfold SwapMetrics.validate; intros H; settle_fields H. Qed.

Lemma disk_sound r l :
  names (DiskMetrics.validate r) l -> violated (disk_constraints r) l.
Proof. unfold DiskMetrics.validate; intros H; settle_fields H. Qed.

Lemma network_sound r l :
  names (NetworkMetrics.validate r) l -> violated (network_constraints r) l.
Proof. unfold NetworkMetrics.validate; intros H; settle_fields H. Qed.

Lemma process_sound r l :
  names (ProcessMetrics.validate r) l -> violated (process_constraints r) l.
Proof.
  unfold ProcessMetrics.validate; intros H.
  repeat (apply names_ap_inv in H as [H|H]); try settle_field H.
  apply names_required_inv in H as [[E ->]|(a & l' & E & -> & H)].
  - eexists; split; [simpl; right; right; left; reflexivity|].
    left; exact E.
  - apply names_float_ge_inv in H as [-> H].
    eexists; split; [simpl; right; right; left; reflexivity|].
    right; exists a; split; assumption.
Qed.

Lemma violated_app_l a b l : violated a l -> violated (a ++ b) l.
Proof.
  intros (P & Hin & HP); exists P; split; [apply in_or_app; left|]; assumption.
Qed.

Lemma violated_app_r a b l : violated b l -> violated (a ++ b) l.
Proof.
  intros (P & Hin & HP); exists P; split; [apply in_or_app; right|]; assumption.
Qed.

Lemma violated_tail c cs l : violated cs l -> violated (c :: cs) l.
Proof.
  intros (P & Hin & HP); exists P; split; [right|]; assumption.
Qed.

Lemma violated_under k cs l : violated cs l -> violated (prefix k cs) (k :: l).
Proof.
  intros (P & Hin & HP); exists P; split; [|exact HP].
  unfold prefix; apply in_map_iff; exists (l, P); split; [reflexivity | exact Hin].
Qed.

Lemma items_sound {A B} (cs : A -> Constraints) (check : A -> Validated B) :
  (forall a l, names (check a) l -> violated (cs a) l) ->
  forall items i l,
    names (each_from i check items) l -> violated (items_from i cs items) l.
Proof.
  intros Hc; induction items as [|a items IH]; intros i l H.
  - destruct (names_accepted _ _ H).
  - change (each_from i check (a :: items))
      with (ap (ap (Accepted cons) (at_loc (Index i) (check a)))
               (each_from (S i) check items)) in H.
    simpl.
    apply names_ap_inv in H as [H|H]; [|apply violated_app_r, IH, H].
    apply names_ap_inv in H as [H|H]; [destruct (names_accepted _ _ H)|].
    apply names_at_loc_inv in H as (l' & -> & H).
    apply violated_app_l, violated_under, Hc, H.
Qed.

Lemma req_nested_sound {A B} name (v : option A) (cs : A -> Constraints)
  (check : A -> Validated B) l :
  (forall a l', names (check a) l' -> violated (cs a) l') ->
  names (required name v check) l -> violated (req_nested name v cs) l.
Proof.
  intros Hc H; unfold req_nested.
  apply names_required_inv in H as [[-> ->]|(a & l' & -> & -> & H)].
  - exists (missing (@None A)); split; [left; reflexivity | reflexivity].
  - apply violated_tail, violated_under, Hc, H.
Qed.

Lemma opt_nested_sound {A B} name (v : option A) (cs : A -> Constraints)
  (check : A -> Validated B) l :
  (forall a l', names (check a) l' -> violated (cs a) l') ->
  names (optional name v check) l -> violated (opt_nested name v cs) l.
Proof.
  intros Hc H; unfold opt_nested.
  apply names_optional_inv in H as (a & l' & -> & -> & H).
  apply violated_under, Hc, H.
Qed.

Lemma snapshot_sound fromisoformat r l :
  names (SystemMetrics.validate fromisoformat r) l ->
  violated (snapshot_constraints fromisoformat r) l.
Proof.
  unfold SystemMetrics.validate, snapshot_constraints; intros H.
  repeat (apply names_ap_inv in H as [H|H]).
  - destruct (names_accepted _ _ H).
  - apply names_required_inv in H as [[E ->]|(a & l' & E & -> & H)].
    + eexists; split; [left; reflexivity | left; exact E].
    + apply names_validate_timestamp_inv in H as [-> H].
      eexists; split; [left; reflexivity|].
      right; exists a; split; assumption.
  - apply field_any_inv in H as [-> H].
    eexists; split; [right; left; reflexivity | exact H].
  - apply violated_tail, violated_tail, violated_app_l.
    eapply req_nested_sound; [apply cpu_sound | exact H].
  - apply violated_tail, violated_tail, violated_app_r, violated_app_l.
    eapply req_nested_sound; [apply memory_sound | exact H].
  - do 2 apply violated_tail; do 2 apply violated_app_r; apply violated_app_l.
    eapply req_nested_sound; [apply swap_sound | exact H].
  - do 2 apply violated_tail; do 3 apply violated_app_r; apply violated_app_l.
    eapply req_nested_sound; [|exact H].
    intros a l'; apply items_sound, disk_sound.
  - do 2 apply violated_tail; do 4 apply violated_app_r; apply violated_app_l.
    eapply opt_nested_sound; [apply network_sound | exact H].
  - do 2 apply violated_tail; do 5 apply violated_app_r.
    eapply opt_nested_sound; [|exact H].
    intros a l'; apply items_sound, process_sound.
  - destruct (field_optional_any_inv _ _ _ H).
Qed.

Lemma payload_sound fromisoformat r l :
  names (MetricsPayload.validate fromisoformat r) l ->
  violated (payload_constraints len fromisoformat r) l.
Proof.
  unfold MetricsPayload.validate, payload_constraints; intros H.
  repeat (apply names_ap_inv in H as [H|H]).
  - destruct (names_accepted _ _ H).
  - apply names_required_inv in H as [[E ->]|(a & l' & E & -> & H)].
    + eexists; split; [left; reflexivity | left; exact E].
    + apply names_str_length_inv in H as [-> H].
      eexists; split; [left; reflexivity|].
      right; exists a; split; assumption.
  - apply violated_tail.
    eapply req_nested_sound; [apply snapshot_sound | exact H].
Qed.

(** ** A rejection always says why *)

Lemma says_why_ap {A B} (f : Validated (A -> B)) (x : Validated A) :
  says_why f -> says_why x -> says_why (ap f x).
Proof.
  destruct f as [g|es], x as [a|es']; simpl; auto.
  intros H _ E; apply app_eq_nil in E as [E _]; auto.
Qed.

Lemma says_why_at_loc {A} k (v : Validated A) :
  says_why v -> says_why (at_loc k v).
Proof.
  destruct v as [a|es]; simpl; auto.
  intros H E; apply map_eq_nil in E; auto.
Qed.

Lemma says_why_fail {A} k : says_why (@fail A k).
Proof. discriminate. Qed.

Lemma says_why_required {A B} name (v : option A) (check : A -> Validated B) :
  (forall a, says_why (check a)) -> says_why (required name v check).
Proof.
  intros H; unfold required; destruct v; apply says_why_at_loc;
    [apply H | apply says_why_fail].
Qed.

Lemma says_why_with_default {A} name d (v : option A) (check : A -> Validated A) :
  (forall a, says_why (check a)) -> says_why (with_default name d v check).
Proof.
  intros H; unfold with_default; destruct v; [apply says_why_at_loc, H | exact I].
Qed.

Lemma says_why_optional {A B} name (v : option A) (check : A -> Validated B) :
  (forall a, says_why (check a)) -> says_why (optional name v check).
Proof.
  intros H; unfold optional; destruct v; [|exact I].
  apply says_why_at_loc, says_why_ap; [exact I | apply H].
Qed.

Lemma says_why_each {A B} (check : A -> Validated B) :
  (forall a, says_why (check a)) ->
  forall items i, says_why (each_from i check items).
Proof.
  intros H; induction items as [|a items IH]; intros i; [exact I|].
  change (each_from i check (a :: items))
    with (ap (ap (Accepted cons) (at_loc (Index i) (check a)))
             (each_from (S i) check items)).
  apply says_why_ap; [|apply IH].
  apply says_why_ap; [exact I | apply says_why_at_loc, H].
Qed.

Lemma says_why_any {A} (a : A) : says_why (any a).
Proof. exact I. Qed.

Lemma says_why_percent_range x : says_why (percent_range x).
Proof.
  unfold percent_range, float_ge_le.
  destruct (Qle_bool 0 x); simpl; [|discriminate].
  destruct (Qle_bool x 100); simpl; [exact I | discriminate].
Qed.

Lemma says_why_float_ge lo x : says_why (float_ge lo x).
Proof. unfold float_ge; destruct (Qle_bool lo x); [exact I | discriminate]. Qed.

Lemma says_why_int_gt lo x : says_why (int_gt lo x).
Proof. unfold int_gt; destruct (Z.ltb lo x); [exact I | discriminate]. Qed.

Lemma says_why_int_ge lo x : says_why (int_ge lo x).
Proof. unfold int_ge; destruct (Z.leb lo x); [exact I | discriminate]. Qed.

Lemma says_why_str_length lo hi v : says_why (str_length lo hi v).
Proof.
  unfold str_length; destruct (Z.ltb (len v) lo); [discriminate|].
  destruct (Z.ltb hi (len v)); [discriminate | exact I].
Qed.

Lemma says_why_validate_timestamp fromisoformat v :
  says_why (SystemMetrics.validate_timestamp fromisoformat v).
Proof.
  unfold SystemMetrics.validate_timestamp.
  destruct (fromisoformat (replace_Z v)); [exact I | discriminate].
Qed.

Create HintDb says_why.
#[local] Hint Resolve says_why_any says_why_percent_range says_why_float_ge
  says_why_int_gt says_why_int_ge says_why_str_length
  says_why_validate_timestamp : says_why.

Ltac says_why_model :=
  repeat first
    [ exact I
    | solve [auto with says_why]
    | apply says_why_ap
    | apply says_why_required; intro
    | apply says_why_with_default; intro
    | apply says_why_optional; intro ].

Lemma says_why_cpu r : says_why (CPUMetrics.validate r).
Proof. unfold CPUMetrics.validate; says_why_model. Qed.

Lemma says_why_memory r : says_why (MemoryMetrics.validate r).
Proof. unfold MemoryMetrics.validate; says_why_model. Qed.

Lemma says_why_swap r : says_why (SwapMetrics.validate r).
Proof. unfold SwapMetrics.validate; says_why_model. Qed.

Lemma says_why_disk r : says_why (DiskMetrics.validate r).
Proof. unfold DiskMetrics.validate; says_why_model. Qed.

Lemma says_why_network r : says_why (NetworkMetrics.validate r).
Proof. unfold NetworkMetrics.validate; says_why_model. Qed.

Lemma says_why_process r : says_why (ProcessMetrics.validate r).
Proof. unfold ProcessMetrics.validate; says_why_model. Qed.

#[local] Hint Resolve says_why_cpu says_why_memory says_why_swap
  says_why_disk says_why_network says_why_process : says_why.

Lemma says_why_snapshot fromisoformat r :
  says_why (SystemMetrics.validate fromisoformat r).
Proof.
  unfold SystemMetrics.validate; says_why_model;
    apply says_why_each; auto with says_why.
Qed.

#[local] Hint Resolve says_why_snapshot : says_why.

Lemma says_why_payload fromisoformat r :
  says_why (MetricsPayload.validate fromisoformat r).
Proof. unfold MetricsPayload.validate; says_why_model. Qed.

(** X13. Validation is exact.  The fields a validation failure names are
    the fields with a violated constraint, no more and no fewer; and a
    body is accepted exactly when no constraint is violated, so that a
    rejection always names at least one field. *)
Theorem validation_names_exactly_the_violated_fields :
  forall fromisoformat body,
    (forall l,
        names (MetricsPayload.validate fromisoformat body) l
        <-> violated (payload_constraints len fromisoformat body) l)
    /\ (is_accepted (MetricsPayload.validate fromisoformat body) = true
        <-> forall l, ~ violated (payload_constraints len fromisoformat body) l).
Proof.
  intros fromisoformat body; split.
  - intros l; split; [apply payload_sound | apply payload_named].
  - pose proof (says_why_payload fromisoformat body) as W.
    split.
    + intros A l V; apply payload_named in V.
      destruct (MetricsPayload.validate fromisoformat body);
        [destruct V | discriminate].
    + intros N.
      destruct (MetricsPayload.validate fromisoformat body) as [p|es] eqn:E;
        [reflexivity|].
      destruct es as [|e es]; [destruct (W eq_refl)|].
      exfalso; apply (N (loc e)), payload_sound.
      rewrite E; left; reflexivity.
Qed.

(** ** A payload's dict validates to the payload *)

Lemma percent_ok x : is_percent x = true -> percent_range x = Accepted x.
Proof.
  unfold is_percent, percent_range, float_ge_le; intros H.
  apply andb_true_iff in H as [-> ->]; reflexivity.
Qed.

Lemma int_gt_ok x : Z.ltb 0 x = true -> int_gt 0 x = Accepted x.
Proof. unfold int_gt; intros ->; reflexivity. Qed.

Lemma int_ge_ok x : Z.leb 0 x = true -> int_ge 0 x = Accepted x.
Proof. unfold int_ge; intros ->; reflexivity. Qed.

Lemma float_ge_ok x : Qle_bool 0 x = true -> float_ge 0 x = Accepted x.
Proof. unfold float_ge; intros ->; reflexivity. Qed.

Lemma req_ok {A B} name (a : A) (b : B) (check : A -> Validated B) :
  check a = Accepted b -> required name (Some a) check = Accepted b.
Proof. unfold required; intros ->; reflexivity. Qed.

Lemma opt_ok {A B} name (o : option B) (d : B -> A) (check : A -> Validated B) :
  (forall b, o = Some b -> check (d b) = Accepted b) ->
  optional name (option_map d o) check = Accepted o.
Proof.
  unfold optional; destruct o as [b|]; simpl; intros H; [|reflexivity].
  rewrite (H b eq_refl); reflexivity.
Qed.

Lemma each_ok {A B} (d : B -> A) (check : A -> Validated B) (l : list B) :
  (forall b, In b l -> check (d b) = Accepted b) ->
  forall i, each_from i check (map d l) = Accepted l.
Proof.
  induction l as [|b l IH]; intros H i; simpl; [reflexivity|].
  rewrite (H b (or_introl eq_refl)), IH; [reflexivity|].
  intros; apply H; right; assumption.
Qed.

Ltac split_ranges H :=
  repeat match type of H with
         | (_ && _)%bool = true =>
           let H' := fresh "R" in apply andb_true_iff in H as [H H']
         end.

Ltac revalidate :=
  repeat first [ rewrite percent_ok by assumption
               | rewrite int_gt_ok by assumption
               | rewrite int_ge_ok by assumption
               | rewrite float_ge_ok by assumption ];
  reflexivity.

Lemma cpu_revalidates c :
  cpu_in_range c = true -> CPUMetrics.validate (cpu_dict c) = Accepted c.
Proof.
  destruct c as [p n nl la]; unfold cpu_in_range, cpu_dict, CPUMetrics.validate;
    simpl; intros H; split_ranges H.
  destruct la; revalidate.
Qed.

Lemma memory_revalidates m :
  memory_in_range m = true -> MemoryMetrics.validate (memory_dict m) = Accepted m.
Proof.
  destruct m; unfold memory_in_range, memory_dict, MemoryMetrics.validate;
    simpl; intros H; split_ranges H; revalidate.
Qed.

Lemma swap_revalidates w :
  swap_in_range w = true -> SwapMetrics.validate (swap_dict w) = Accepted w.
Proof.
  destruct w; unfold swap_in_range, swap_dict, SwapMetrics.validate;
    simpl; intros H; split_ranges H; revalidate.
Qed.

Lemma disk_revalidates d :
  disk_in_range d = true -> DiskMetrics.validate (disk_dict d) = Accepted d.
Proof.
  destruct d; unfold disk_in_range, disk_dict, DiskMetrics.validate;
    simpl; intros H; split_ranges H; revalidate.
Qed.

Lemma network_revalidates n :
  network_in_range n = true ->
  NetworkMetrics.validate (network_dict n) = Accepted n.
Proof.
  destruct n; unfold network_in_range, network_dict, NetworkMetrics.validate;
    simpl; intros H; split_ranges H; revalidate.
Qed.

Lemma process_revalidates q :
  process_in_range q = true ->
  ProcessMetrics.validate (process_dict q) = Accepted q.
Proof.
  destruct q; unfold process_in_range, process_dict, ProcessMetrics.validate;
    simpl; intros H; split_ranges H; revalidate.
Qed.

Lemma validate_timestamp_ok fromisoformat v :
  parseable fromisoformat v = true ->
  SystemMetrics.validate_timestamp fromisoformat v = Accepted v.
Proof.
  unfold parseable, SystemMetrics.validate_timestamp.
  destruct (fromisoformat (replace_Z v)); [reflexivity | discriminate].
Qed.

Lemma snapshot_revalidates fromisoformat m :
  parseable fromisoformat (SystemMetrics.timestamp m) = true ->
  snapshot_in_range m = true ->
  SystemMetrics.validate fromisoformat (snapshot_dict m) = Accepted m.
Proof.
  destruct m as [ts hn c me sw dk nw tp er].
  unfold snapshot_in_range, snapshot_dict, SystemMetrics.validate.
  cbn [SystemMetrics.timestamp SystemMetrics.hostname SystemMetrics.cpu
       SystemMetrics.memory SystemMetrics.swap SystemMetrics.disk
       SystemMetrics.network SystemMetrics.top_processes SystemMetrics.error
       SystemMetrics.r_timestamp SystemMetrics.r_hostname SystemMetrics.r_cpu
       SystemMetrics.r_memory SystemMetrics.r_swap SystemMetrics.r_disk
       SystemMetrics.r_network SystemMetrics.r_top_processes
       SystemMetrics.r_error].
  intros T H; split_ranges H.
  rewrite (req_ok "timestamp" ts ts _ (validate_timestamp_ok _ _ T)).
  rewrite (req_ok "hostname" hn hn any eq_refl).
  rewrite (req_ok "cpu" _ _ _ (cpu_revalidates _ H)).
  rewrite (req_ok "memory" _ _ _ (memory_revalidates _ R3)).
  rewrite (req_ok "swap" _ _ _ (swap_revalidates _ R2)).
  rewrite (req_ok "disk" (map disk_dict dk) dk (each DiskMetrics.validate)).
  2:{ apply each_ok; intros d Hd; apply disk_revalidates.
      rewrite forallb_forall in R1; apply R1, Hd. }
  rewrite (opt_ok "network" nw network_dict NetworkMetrics.validate).
  2:{ intros n ->; apply network_revalidates, R0. }
  rewrite (opt_ok "top_processes" tp (map process_dict)
             (each ProcessMetrics.validate)).
  2:{ intros l ->; apply each_ok; intros q Hq; apply process_revalidates.
      simpl in R; rewrite forallb_forall in R; apply R, Hq. }
  destruct er; reflexivity.
Qed.

(** X14. A payload that is in range validates from its own dict: for every
    typed payload whose hostname has 1 to 255 characters, whose
    timestamp parses and whose numbers lie in the ranges of the models,
    validating [payload.dict()] accepts it and gives the payload back. *)
Theorem dict_of_a_payload_validates_to_it :
  forall fromisoformat p,
    payload_in_range fromisoformat p = true ->
    MetricsPayload.validate fromisoformat (payload_dict p) = Accepted p.
Proof.
  intros fromisoformat [hn m]; unfold payload_in_range, payload_dict,
    MetricsPayload.validate.
  cbn [MetricsPayload.hostname MetricsPayload.metrics
       MetricsPayload.r_hostname MetricsPayload.r_metrics].
  intros H; split_ranges H.
  rewrite (req_ok "hostname" hn hn (str_length 1 255)).
  2:{ unfold str_length.
      apply Z.leb_le in H, R1.
      destruct (Z.ltb_spec (len hn) 1); [lia|].
      destruct (Z.ltb_spec 255 (len hn)); [lia | reflexivity]. }
  rewrite (req_ok "metrics" _ _ _ (snapshot_revalidates _ _ R0 R)).
  reflexivity.
Qed.

Lemma dict_of_a_payload_validates_to_it_witness :
  payload_in_range PyDatetime.fromisoformat Sample.host_a = true
  /\ MetricsPayload.validate PyDatetime.fromisoformat (payload_dict Sample.host_a)
     = Accepted Sample.host_a.
Proof.
  assert (H : payload_in_range PyDatetime.fromisoformat Sample.host_a = true)
    by reflexivity.
  exact (conj H (dict_of_a_payload_validates_to_it _ _ H)).
Defined.

(** ** What an accepted payload carries *)

Lemma req_percent_acc name v y :
  required name v percent_range = Accepted y ->
  v = Some y /\ is_percent y = true.
Proof.
  intros H; apply required_accepted in H as (a & -> & H).
  unfold percent_range, float_ge_le, is_percent in *.
  destruct (Qle_bool 0 a) eqn:E0; simpl in H; [|discriminate].
  destruct (Qle_bool a 100) eqn:E; simpl in H; [|discriminate].
  injection H as <-; rewrite E0, E; split; reflexivity.
Qed.

Lemma req_gt_acc name v y :
  required name v (int_gt 0) = Accepted y -> v = Some y /\ Z.ltb 0 y = true.
Proof.
  intros H; apply required_accepted in H as (a & -> & H).
  unfold int_gt in H; destruct (Z.ltb 0 a) eqn:E; [|discriminate].
  injection H as <-; split; [reflexivity | exact E].
Qed.

Lemma req_ge_acc name v y :
  required name v (int_ge 0) = Accepted y -> v = Some y /\ Z.leb 0 y = true.
Proof.
  intros H; apply required_accepted in H as (a & -> & H).
  unfold int_ge in H; destruct (Z.leb 0 a) eqn:E; [|discriminate].
  injection H as <-; split; [reflexivity | exact E].
Qed.

Lemma req_float_ge_acc name v y :
  required name v (float_ge 0) = Accepted y ->
  v = Some y /\ Qle_bool 0 y = true.
Proof.
  intros H; apply required_accepted in H as (a & -> & H).
  unfold float_ge in H; destruct (Qle_bool 0 a) eqn:E; [|discriminate].
  injection H as <-; split; [reflexivity | exact E].
Qed.

Lemma def_ge_acc name v y :
  with_default name 0 v (int_ge 0) = Accepted y ->
  or_zero v = Some y /\ Z.leb 0 y = true.
Proof.
  unfold with_default; destruct v as [a|]; simpl.
  - unfold int_ge; destruct (Z.leb 0 a) eqn:E; simpl; [|discriminate].
    intros H; injection H as <-; split; [reflexivity | exact E].
  - intros H; injection H as <-; split; reflexivity.
Qed.

Lemma req_any_acc {A} name (v : option A) y :
  required name v any = Accepted y -> v = Some y.
Proof.
  intros H; apply required_accepted in H as (a & -> & H).
  injection H as <-; reflexivity.
Qed.

Lemma optional_accepted {A B} name (v : option A) (check : A -> Validated B) o :
  optional name v check = Accepted o ->
  (v = None /\ o = None)
  \/ exists a b, v = Some a /\ o = Some b /\ check a = Accepted b.
Proof.
  unfold optional; destruct v as [a|].
  - destruct (check a) as [b|es] eqn:E; simpl; [|discriminate].
    intros H; injection H as <-; right; exists a, b.
    split; [reflexivity | split; [reflexivity | exact E]].
  - intros H; injection H as <-; left; split; reflexivity.
Qed.

Lemma opt_any_acc {A} name (v : option A) o :
  optional name v any = Accepted o -> v = o.
Proof.
  intros H; apply optional_accepted in H as [[-> ->]|(a & b & -> & -> & H)];
    [reflexivity|].
  injection H as <-; reflexivity.
Qed.

Lemma each_accepted {A B} (d : B -> A) (ok : B -> bool) (check : A -> Validated B) :
  (forall a b, check a = Accepted b -> d b = a /\ ok b = true) ->
  forall items i l,
    each_from i check items = Accepted l ->
    map d l = items /\ forallb ok l = true.
Proof.
  intros Hc; induction items as [|a items IH]; intros i l H.
  - injection H as <-; split; reflexivity.
  - change (each_from i check (a :: items))
      with (ap (ap (Accepted cons) (at_loc (Index i) (check a)))
               (each_from (S i) check items)) in H.
    apply ap_accepted in H as (g & l' & Hg & Hl & ->).
    apply ap_accepted in Hg as (g' & b & Hg' & Hb & ->).
    injection Hg' as <-.
    destruct (check a) as [b'|es] eqn:E; simpl in Hb; [|discriminate].
    injection Hb as ->.
    destruct (Hc a b E) as [<- Hok], (IH _ _ Hl) as [<- Hall].
    simpl; rewrite Hok, Hall; split; reflexivity.
Qed.

(** Takes the acceptance of a model apart into that of its fields. *)
Ltac fields_of H :=
  repeat (apply ap_accepted in H as (? & ? & H & ? & ->));
  injection H as <-;
  repeat match goal with
         | F : required _ _ percent_range = Accepted _ |- _ =>
           apply req_percent_acc in F as [? ?]
         | F : required _ _ (int_gt 0) = Accepted _ |- _ =>
           apply req_gt_acc in F as [? ?]
         | F : required _ _ (int_ge 0) = Accepted _ |- _ =>
           apply req_ge_acc in F as [? ?]
         | F : required _ _ (float_ge 0) = Accepted _ |- _ =>
           apply req_float_ge_acc in F as [? ?]
         | F : with_default _ 0 _ (int_ge 0) = Accepted _ |- _ =>
           apply def_ge_acc in F as [? ?]
         | F : required _ _ any = Accepted _ |- _ =>
           apply req_any_acc in F
         | F : optional _ _ any = Accepted _ |- _ =>
           apply opt_any_acc in F
         end.

Ltac in_range :=
  unfold cpu_in_range, memory_in_range, swap_in_range, disk_in_range,
    network_in_range, process_in_range;
  rewrite !andb_true_iff; repeat split; assumption.

Lemma cpu_accepted r c :
  CPUMetrics.validate r = Accepted c ->
  cpu_dict c = r /\ cpu_in_range c = true.
Proof.
  unfold CPUMetrics.validate; intros H; fields_of H.
  destruct r; cbn in *; subst; split; [reflexivity | in_range].
Qed.

Lemma memory_accepted r m :
  MemoryMetrics.validate r = Accepted m ->
  memory_dict m = memory_defaults r /\ memory_in_range m = true.
Proof.
  unfold MemoryMetrics.validate; intros H; fields_of H.
  destruct r; unfold memory_defaults, memory_dict, memory_in_range;
    cbn in *; subst; split; [congruence | in_range].
Qed.

Lemma swap_accepted r w :
  SwapMetrics.validate r = Accepted w ->
  swap_dict w = r /\ swap_in_range w = true.
Proof.
  unfold SwapMetrics.validate; intros H; fields_of H.
  destruct r; cbn in *; subst; split; [reflexivity | in_range].
Qed.

Lemma disk_accepted r d :
  DiskMetrics.validate r = Accepted d ->
  disk_dict d = r /\ disk_in_range d = true.
Proof.
  unfold DiskMetrics.validate; intros H; fields_of H.
  destruct r; cbn in *; subst; split; [reflexivity | in_range].
Qed.

Lemma network_accepted r n :
  NetworkMetrics.validate r = Accepted n ->
  network_dict n = network_defaults r /\ network_in_range n = true.
Proof.
  unfold NetworkMetrics.validate; intros H; fields_of H.
  destruct r; unfold network_defaults, network_dict, network_in_range;
    cbn in *; subst; split; [congruence | in_range].
Qed.

Lemma process_accepted r q :
  ProcessMetrics.validate r = Accepted q ->
  process_dict q = r /\ process_in_range q = true.
Proof.
  unfold ProcessMetrics.validate; intros H; fields_of H.
  destruct r; cbn in *; subst; split; [reflexivity | in_range].
Qed.

Lemma snapshot_accepted fromisoformat r m :
  SystemMetrics.validate fromisoformat r = Accepted m ->
  snapshot_dict m = snapshot_defaults r
  /\ snapshot_in_range m = true
  /\ parseable fromisoformat (SystemMetrics.timestamp m) = true.
Proof.
  unfold SystemMetrics.validate; intros H.
  apply ap_accepted in H as (g8 & er & H & Her & ->).
  apply ap_accepted in H as (g7 & tp & H & Htp & ->).
  apply ap_accepted in H as (g6 & nw & H & Hnw & ->).
  apply ap_accepted in H as (g5 & dk & H & Hdk & ->).
  apply ap_accepted in H as (g4 & sw & H & Hsw & ->).
  apply ap_accepted in H as (g3 & me & H & Hme & ->).
  apply ap_accepted in H as (g2 & cp & H & Hcp & ->).
  apply ap_accepted in H as (g1 & hn & H & Hhn & ->).
  apply ap_accepted in H as (g0 & ts & H & Hts & ->).
  injection H as <-.
  apply required_accepted in Hts as (v & Ets & Hts).
  apply validate_timestamp_accepted in Hts as (-> & d & Pts).
  apply req_any_acc in Hhn.
  apply required_accepted in Hcp as (rc & Ecpu & Hcp).
  apply cpu_accepted in Hcp as [Dcpu Rcpu].
  apply required_accepted in Hme as (rme & Emem & Hme).
  apply memory_accepted in Hme as [Dmem Rmem].
  apply required_accepted in Hsw as (rsw & Eswap & Hsw).
  apply swap_accepted in Hsw as [Dswap Rswap].
  apply required_accepted in Hdk as (rdk & Edisk & Hdk).
  apply (each_accepted disk_dict disk_in_range _ disk_accepted) in Hdk
    as [Ddisk Rdisk].
  apply opt_any_acc in Her.
  assert (N : option_map network_dict nw
              = option_map network_defaults (SystemMetrics.r_network r)
              /\ for_option network_in_range nw = true).
  { apply optional_accepted in Hnw as [[-> ->]|(a & b & -> & -> & F)];
      [split; reflexivity|].
    apply network_accepted in F as [F1 F2]; simpl; rewrite F1.
    split; [reflexivity | exact F2]. }
  assert (T : option_map (map process_dict) tp = SystemMetrics.r_top_processes r
              /\ for_option (forallb process_in_range) tp = true).
  { apply optional_accepted in Htp as [[-> ->]|(a & b & -> & -> & F)];
      [split; reflexivity|].
    apply (each_accepted process_dict process_in_range _ process_accepted) in F
      as [F1 F2]; simpl; rewrite F1; split; [reflexivity | exact F2]. }
  destruct N as [N1 N2], T as [T1 T2].
  destruct r; unfold snapshot_dict, snapshot_defaults, snapshot_in_range,
    parseable; cbn in *.
  split; [|rewrite Pts, Rcpu, Rmem, Rswap, Rdisk, N2, T2; split; reflexivity].
  f_equal; try (rewrite Emem; simpl); congruence.
Qed.

(** X15. An accepted payload carries what was submitted and is in range: its
    dict is the request body with 0 filled in for each absent counter
    that has a default, its hostname has 1 to 255 characters, its
    timestamp parses and every number lies in the range of its field. *)
Theorem accepted_payload_is_the_body_in_range :
  forall fromisoformat body p,
    MetricsPayload.validate fromisoformat body = Accepted p ->
    payload_dict p = payload_defaults body
    /\ payload_in_range fromisoformat p = true.
Proof.
  intros fromisoformat body p; unfold MetricsPayload.validate; intros H.
  apply ap_accepted in H as (g & m & Hg & Hm & ->).
  apply ap_accepted in Hg as (g' & hn & Hg' & Hhn & ->).
  injection Hg' as <-.
  apply required_accepted in Hm as (rm & Em & Hm).
  apply snapshot_accepted in Hm as (Dm & Rm & Pm).
  apply required_accepted in Hhn as (h & Eh & Hhn).
  assert (L : hn = h /\ Z.leb 1 (len hn) = true /\ Z.leb (len hn) 255 = true).
  { unfold str_length in Hhn.
    destruct (Z.ltb_spec (len h) 1) as [L1|L1]; [discriminate|].
    destruct (Z.ltb_spec 255 (len h)) as [L2|L2]; [discriminate|].
    injection Hhn as <-; repeat split; apply Z.leb_le; lia. }
  destruct L as (-> & L1 & L2).
  destruct body as [bh bm]; unfold payload_dict, payload_defaults,
    payload_in_range; cbn in *; subst.
  rewrite Dm, L1, L2, Pm, Rm; split; reflexivity.
Qed.

Lemma accepted_payload_is_the_body_in_range_witness :
  let body := Sample.body (lit "2024-01-01T12:30:45+00:00") (lit "host-a") in
  MetricsPayload.validate PyDatetime.fromisoformat body = Accepted Sample.host_a
  /\ payload_dict Sample.host_a = payload_defaults body
  /\ payload_in_range PyDatetime.fromisoformat Sample.host_a = true.
Proof.
  cbv zeta.
  assert (E : MetricsPayload.validate PyDatetime.fromisoformat
                (Sample.body (lit "2024-01-01T12:30:45+00:00") (lit "host-a"))
              = Accepted Sample.host_a) by reflexivity.
  exact (conj E (accepted_payload_is_the_body_in_range _ _ _ E)).
Defined.

(** * Properties of the configuration *)

Lemma str_eqb_eq a b : str_eqb a b = true <-> a = b.
Proof.
  unfold str_eqb; destruct (list_eq_dec N.eq_dec a b); split;
    congruence || auto.
Qed.

Lemma str_eqb_refl a : str_eqb a a = true.
Proof. apply str_eqb_eq; reflexivity. Qed.

Lemma dict_get_set k k' v d :
  dict_get k (dict_set k' v d)
  = if str_eqb k' k then Some v else dict_get k d.
Proof.
  induction d as [|[k0 v0] d IH]; simpl.
  - destruct (str_eqb k' k); reflexivity.
  - destruct (str_eqb k0 k') eqn:E0; simpl.
    + apply str_eqb_eq in E0; subst k0.
      destruct (str_eqb k' k); reflexivity.
    + destruct (str_eqb k0 k) eqn:E1; [|exact IH].
      destruct (str_eqb k' k) eqn:E2; [|reflexivity].
      apply str_eqb_eq in E1, E2; subst.
      rewrite str_eqb_refl in E0; discriminate.
Qed.

Lemma dict_update_absent k e : forall d,
  dict_get k e = None -> dict_get k (dict_update d e) = dict_get k d.
Proof.
  unfold dict_update; induction e as [|[k0 v0] e IH]; intros d H; simpl in *;
    [reflexivity|].
  destruct (str_eqb k0 k) eqn:E; [discriminate|].
  rewrite IH by exact H; rewrite dict_get_set, E; reflexivity.
Qed.

Lemma dict_update_present k e : forall d,
  NoDup (map fst e) ->
  dict_get k e <> None -> dict_get k (dict_update d e) = dict_get k e.
Proof.
  unfold dict_update; induction e as [|[k0 v0] e IH]; intros d N H; simpl in *;
    [contradiction|].
  inversion N as [|? ? Hnotin N']; subst.
  destruct (str_eqb k0 k) eqn:E.
  - apply str_eqb_eq in E; subst k0.
    assert (A : dict_get k e = None).
    { clear -Hnotin; induction e as [|[k1 v1] e IH]; simpl in *; [reflexivity|].
      destruct (str_eqb k1 k) eqn:E1.
      - apply str_eqb_eq in E1; subst; tauto.
      - apply IH; tauto. }
    pose proof (dict_update_absent k e (dict_set k v0 d) A) as U.
    unfold dict_update in U; rewrite U, dict_get_set, str_eqb_refl; reflexivity.
  - apply IH; assumption.
Qed.

(** X16. The override file is merged key by key at the top level only: for a
    file holding a JSON object, each key of the file gives the loaded
    configuration the file's value, whole, and each key the file does
    not have keeps the value built from the environment. *)
Theorem override_file_is_a_shallow_merge :
  forall py_int env o base,
    NoDup (map fst o) ->
    from_environment py_int env = Done base ->
    exists config,
      load_db_config py_int env (JsonObject o) = Done config
      /\ forall k,
          dict_get k config = match dict_get k o with
                              | Some v => Some v
                              | None => dict_get k base
                              end.
Proof.
  intros py_int env o base N; unfold from_environment, load_db_config.
  destruct (py_int (getenv env "INFLUXDB_TIMEOUT" "10000")) as [t|];
    [|discriminate].
  intros E; injection E as <-.
  eexists; split; [reflexivity|]; intros k.
  destruct (dict_get k o) as [v|] eqn:G.
  - rewrite dict_update_present, G; [reflexivity | exact N | congruence].
  - apply dict_update_absent, G.
Qed.

Lemma override_file_is_a_shallow_merge_witness :
  NoDup (map fst SampleConfig.override)
  /\ exists base config,
      from_environment SampleConfig.decimal SampleConfig.path_env = Done base
      /\ load_db_config SampleConfig.decimal SampleConfig.path_env
           (JsonObject SampleConfig.override) = Done config
      /\ dict_get (lit "sqlite") config = Some (PyDict []).
Proof.
  assert (N : NoDup (map fst SampleConfig.override))
    by (repeat constructor; simpl; tauto).
  refine (conj N _).
  eexists.
  destruct (override_file_is_a_shallow_merge SampleConfig.decimal
              SampleConfig.path_env SampleConfig.override _ N eq_refl)
    as (config & E & G).
  exists config; refine (conj eq_refl (conj E _)).
  rewrite G; reflexivity.
Defined.

Lemma dict_update_same k e : forall d d',
  dict_get k d = dict_get k d' ->
  dict_get k (dict_update d e) = dict_get k (dict_update d' e).
Proof.
  unfold dict_update; induction e as [|[k0 v0] e IH]; intros d d' H; simpl;
    [exact H|].
  apply IH; rewrite !dict_get_set, H; reflexivity.
Qed.

Lemma dict_update_overrides k e : forall d d',
  dict_get k e <> None ->
  dict_get k (dict_update d e) = dict_get k (dict_update d' e).
Proof.
  induction e as [|[k0 v0] e IH]; intros d d' H; simpl in H; [contradiction|].
  destruct (str_eqb k0 k) eqn:E.
  - apply (dict_update_same k e (dict_set k0 v0 d) (dict_set k0 v0 d')).
    rewrite !dict_get_set, E; reflexivity.
  - apply (IH (dict_set k0 v0 d) (dict_set k0 v0 d') H).
Qed.

Lemma getenv_same (env env' : Environ) name default :
  env (lit name) = env' (lit name) ->
  getenv env name default = getenv env' name default.
Proof. unfold getenv; intros ->; reflexivity. Qed.

(** X17. A [sqlite] key in the override file hides SQLITE_PATH: when the file
    holds a JSON object with that key, two environments that differ in
    SQLITE_PATH only start the service with the same backend and the
    same database path (or the same error). *)
Theorem sqlite_key_of_the_file_hides_SQLITE_PATH :
  forall available lower py_int (env env' : Environ) o,
    (forall name, name <> lit "SQLITE_PATH" -> env name = env' name) ->
    dict_get (lit "sqlite") o <> None ->
    startup available lower py_int env (JsonObject o)
    = startup available lower py_int env' (JsonObject o).
Proof.
  intros available lower py_int env env' o Same Has.
  assert (Hs : forall name, lit name <> lit "SQLITE_PATH" ->
                            env (lit name) = env' (lit name))
    by (intros; apply Same; assumption).
  unfold startup, load_db_config.
  rewrite (getenv_same env env' "INFLUXDB_TIMEOUT") by (apply Hs; discriminate).
  destruct (py_int (getenv env' "INFLUXDB_TIMEOUT" "10000")) as [t|];
    [|reflexivity].
  rewrite (getenv_same env env' "DB_TYPE"),
          (getenv_same env env' "INFLUXDB_URL"),
          (getenv_same env env' "INFLUXDB_ORG"),
          (getenv_same env env' "INFLUXDB_BUCKET"),
          (Hs "INFLUXDB_TOKEN"%string)
    by (apply Hs || idtac; discriminate).
  unfold create_database, get_or.
  match goal with
  | |- context [dict_update ?d o] =>
    match goal with
    | |- _ = ?rhs =>
      match rhs with
      | context [dict_update ?d' o] =>
        rewrite (dict_update_same (lit "type") o d d' eq_refl),
                (dict_update_same (lit "influxdb") o d d' eq_refl),
                (dict_update_overrides (lit "sqlite") o d d' Has)
      end
    end
  end.
  reflexivity.
Qed.

Lemma sqlite_key_of_the_file_hides_SQLITE_PATH_witness :
  (forall name, name <> lit "SQLITE_PATH" ->
                SampleConfig.path_env name = SampleConfig.no_env name)
  /\ dict_get (lit "sqlite") SampleConfig.override <> None
  /\ startup false SampleConfig.ascii_lower SampleConfig.decimal
       SampleConfig.path_env (JsonObject SampleConfig.override)
     = Done (MetricsDatabase (lit "metrics.db"))
  /\ startup false SampleConfig.ascii_lower SampleConfig.decimal
       SampleConfig.path_env NoFile
     = Done (MetricsDatabase (lit "/var/lib/metrics.db")).
Proof.
  assert (A : forall name, name <> lit "SQLITE_PATH" ->
                           SampleConfig.path_env name = SampleConfig.no_env name).
  { intros name N; unfold SampleConfig.path_env, SampleConfig.no_env.
    destruct (str_eqb name (lit "SQLITE_PATH")) eqn:E; [|reflexivity].
    apply str_eqb_eq in E; contradiction. }
  assert (B : dict_get (lit "sqlite") SampleConfig.override <> None)
    by discriminate.
  refine (conj A (conj B (conj _ eq_refl))).
  rewrite (sqlite_key_of_the_file_hides_SQLITE_PATH false
             SampleConfig.ascii_lower SampleConfig.decimal
             SampleConfig.path_env SampleConfig.no_env _ A B).
  reflexivity.
Defined.

(** X18. Without the adapter, the factory never selects it: whatever the
    configuration says, a factory call that returns has chosen the
    embedded store. *)
Theorem unavailable_adapter_is_never_selected :
  forall lower config backend,
    create_database false lower config = Done backend ->
    exists path, backend = MetricsDatabase path.
Proof.
  intros lower config backend; unfold create_database.
  destruct (get_or (lit "type") _ _) as [| | | |t| |]; try discriminate.
  rewrite andb_false_r.
  destruct (get_or (lit "sqlite") _ _) as [| | | | | |section]; try discriminate.
  destruct (get_or (lit "path") _ section) as [| | | |path| |]; try discriminate.
  intros E; injection E as <-; exists path; reflexivity.
Qed.

Lemma unavailable_adapter_is_never_selected_witness :
  let config := [(lit "type", PyStr (lit "InfluxDB"))] in
  create_database false SampleConfig.ascii_lower (Some config)
    = Done (MetricsDatabase (lit "metrics.db"))
  /\ create_database true SampleConfig.ascii_lower (Some config)
    = Done (InfluxDBAdapter (PyDict []))
  /\ exists path, MetricsDatabase (lit "metrics.db") = MetricsDatabase path.
Proof.
  cbv zeta.
  assert (E : create_database false SampleConfig.ascii_lower
                (Some [(lit "type", PyStr (lit "InfluxDB"))])
              = Done (MetricsDatabase (lit "metrics.db"))) by reflexivity.
  refine (conj E (conj eq_refl _)).
  exact (unavailable_adapter_is_never_selected _ _ _ E).
Defined.

(** * Further properties: timestamps and hosts *)

Lemma replace_Z_app a b : replace_Z (a ++ b) = replace_Z a ++ replace_Z b.
Proof.
  induction a as [|c a IH]; simpl; [reflexivity|].
  rewrite IH; destruct (N.eqb c 90); reflexivity.
Qed.

Lemma replace_Z_idempotent v : replace_Z (replace_Z v) = replace_Z v.
Proof.
  induction v as [|c v IH]; simpl; [reflexivity|].
  destruct (N.eqb c 90) eqn:E; simpl.
  - rewrite IH; reflexivity.
  - rewrite E, IH; reflexivity.
Qed.

(** X19. Writing the zone as [Z] or as [+00:00] makes no difference to the
    validator: a timestamp is accepted exactly when the same timestamp
    with each [Z] spelled [+00:00] is, whatever the parser. *)
Theorem timestamp_Z_is_utc_offset :
  forall fromisoformat v,
    is_accepted (SystemMetrics.validate_timestamp fromisoformat v)
    = is_accepted (SystemMetrics.validate_timestamp fromisoformat (replace_Z v)).
Proof.
  intros fromisoformat v; unfold SystemMetrics.validate_timestamp.
  rewrite replace_Z_idempotent.
  destruct (fromisoformat (replace_Z v)); reflexivity.
Qed.

Lemma matches_needs_the_host h s r :
  h <> [] -> hostname r <> h -> matches (Some h) s r = false.
Proof.
  intros Hne Hdiff; destruct h as [|c t]; [contradiction|].
  unfold matches, truthy, hostname_is.
  destruct (str_eqb (hostname r) (c :: t)) eqn:E; [|reflexivity].
  apply str_eqb_eq in E; contradiction.
Qed.

Lemma matches_other_host h now p db s :
  h <> [] ->
  h <> MetricsPayload.hostname p ->
  filter (matches (Some h) s) (metrics (insert_row now p db))
  = filter (matches (Some h) s) (metrics db).
Proof.
  intros Hne Hdiff; unfold insert_row; cbn [metrics].
  rewrite filter_app; cbn [filter].
  rewrite matches_needs_the_host; [apply app_nil_r | exact Hne|].
  cbn [hostname]; congruence.
Qed.

(** X20. Storing a record for one host changes nothing for another: a read
    or a summary filtered on a different hostname gives after the store
    what it gave before, whether the store went through or not. *)
Theorem store_leaves_other_hosts_alone :
  forall f g now now' db p h hours,
    h <> [] ->
    h <> MetricsPayload.hostname p ->
    let db' := snd (store_metrics f now db p) in
    fst (get_recent_metrics g now' db' (Some h) hours)
      = fst (get_recent_metrics g now' db (Some h) hours)
    /\ fst (get_summary_stats g now' db' (Some h) hours)
      = fst (get_summary_stats g now' db (Some h) hours).
Proof.
  intros f g now now' db p h hours Hne Hdiff db'.
  assert (E : filter (matches (Some h) (since now' hours)) (metrics db')
              = filter (matches (Some h) (since now' hours)) (metrics db)).
  { unfold db'; rewrite store_metrics_run; destruct (meets f _); simpl;
      [reflexivity|].
    destruct (bindable p); simpl;
      [apply matches_other_host; assumption | reflexivity]. }
  clearbody db'.
  rewrite !get_recent_metrics_run, !get_summary_stats_run.
  destruct (meets g _); simpl; [split; reflexivity|].
  destruct (representable (since now' hours) && filter_binds _)%bool; simpl; [|split; reflexivity].
  unfold select_order_limit, select_aggregates; rewrite E; split; reflexivity.
Qed.

Lemma store_leaves_other_hosts_alone_witness :
  lit "host-b" <> []
  /\ lit "host-b" <> MetricsPayload.hostname Sample.host_a
  /\ fst (get_summary_stats no_faults 1000
            (snd (store_metrics no_faults 1000 init_database Sample.host_a))
            (Some (lit "host-b")) 1)
     = fst (get_summary_stats no_faults 1000 init_database
              (Some (lit "host-b")) 1).
Proof.
  assert (A : lit "host-b" <> []) by discriminate.
  assert (B : lit "host-b" <> MetricsPayload.hostname Sample.host_a)
    by discriminate.
  refine (conj A (conj B _)).
  exact (proj2 (store_leaves_other_hosts_alone no_faults no_faults 1000 1000
                  init_database Sample.host_a (lit "host-b") 1 A B)).
Defined.
